(** * Live captioning front end: capture, dispatch and caption orchestration

    A shallow embedding of [tago-2nd-frontend/src/pages/joinpage.tsx] and of
    the [Helpers] class it imports.  The page is a single-threaded,
    event-driven program: every callback runs to its next real suspension
    point ([await] on a network call, a timer) and the continuation is
    resumed by a later event.  Each component is therefore modelled as a
    state record, a list of suspended continuations and a total [step]
    function over the events the browser can deliver. *)

From Stdlib Require Import ZArith QArith List Bool Strings.String Strings.Ascii Lia.
From Stdlib Require Import Lqa Sorted.
Import ListNotations.

Local Open Scope Z_scope.

(** ** JavaScript values used by the page *)

Module JS.

(** A JavaScript string is a sequence of UTF-16 code units. *)
Definition jsstring := list N.

Definition lit (s : string) : jsstring :=
  map N_of_ascii (list_ascii_of_string s).

Definition jsstring_eqb (a b : jsstring) : bool :=
  if list_eq_dec N.eq_dec a b then true else false.

(** ECMAScript [WhiteSpace] and [LineTerminator] code points, the set
    stripped by [String.prototype.trim]. *)
Definition is_whitespace (c : N) : bool :=
  existsb (N.eqb c)
    [0x09; 0x0A; 0x0B; 0x0C; 0x0D; 0x20; 0xA0; 0x1680;
     0x2000; 0x2001; 0x2002; 0x2003; 0x2004; 0x2005; 0x2006; 0x2007;
     0x2008; 0x2009; 0x200A; 0x2028; 0x2029; 0x202F; 0x205F; 0x3000;
     0xFEFF]%N.

Fixpoint trimStart (s : jsstring) : jsstring :=
  match s with
  | c :: s' => if is_whitespace c then trimStart s' else s
  | [] => []
  end.

Definition trim (s : jsstring) : jsstring :=
  rev (trimStart (rev (trimStart s))).

(** Truthiness of a possibly absent string: [undefined], [null] and the
    empty string are falsy. *)
Definition truthy (v : option jsstring) : bool :=
  match v with
  | Some (_ :: _) => true
  | _ => false
  end.

(** [v || d] for a possibly absent string [v] and a string [d]. *)
Definition or_else (v : option jsstring) (d : jsstring) : jsstring :=
  match v with
  | Some (c :: s) => c :: s
  | _ => d
  end.

(** A JavaScript number as far as the encoder needs it.  The samples are
    elements of a [Float32Array]; their product with [0x7FFF] has at most
    39 significant bits and is exact in double precision, so the finite
    case is carried by an exact rational. *)
Inductive number : Type :=
| NaN
| PosInf
| NegInf
| Fin (q : Q).

Definition Math_min (a b : number) : number :=
  match a, b with
  | NaN, _ | _, NaN => NaN
  | NegInf, _ | _, NegInf => NegInf
  | PosInf, x | x, PosInf => x
  | Fin x, Fin y => if Qle_bool x y then Fin x else Fin y
  end.

Definition Math_max (a b : number) : number :=
  match a, b with
  | NaN, _ | _, NaN => NaN
  | PosInf, _ | _, PosInf => PosInf
  | NegInf, x | x, NegInf => x
  | Fin x, Fin y => if Qle_bool x y then Fin y else Fin x
  end.

(** Multiplication by a positive finite constant. *)
Definition times (a : number) (k : positive) : number :=
  match a with
  | Fin x => Fin (x * (Z.pos k # 1))
  | other => other
  end.

(** Truncation toward zero. *)
Definition truncate (q : Q) : Z := Z.quot (Qnum q) (Z.pos (Qden q)).

(** [ToInt16]: non-finite values become 0, finite ones are truncated,
    reduced modulo 2^16 and read as two's complement. *)
Definition ToInt16 (a : number) : Z :=
  match a with
  | Fin x =>
      let u := (truncate x) mod 65536 in
      if u <? 32768 then u else u - 65536
  | _ => 0
  end.

Definition ToUint32 (z : Z) : Z := z mod 4294967296.
Definition ToUint16 (z : Z) : Z := z mod 65536.

End JS.

Import JS.

(** ** WAVEncoder (joinpage.tsx, lines 25-102) *)

Module WAVEncoder.

(** Bytes written by [DataView.setUint32(_, v, true)]. *)
Definition setUint32 (v : Z) : list Z :=
  let u := ToUint32 v in
  [u mod 256; (u / 256) mod 256; (u / 65536) mod 256; (u / 16777216) mod 256].

(** Bytes written by [DataView.setUint16(_, v, true)]. *)
Definition setUint16 (v : Z) : list Z :=
  let u := ToUint16 v in
  [u mod 256; (u / 256) mod 256].

(** Bytes written by [DataView.setInt16(_, v, true)]. *)
Definition setInt16 (v : number) : list Z :=
  let u := (ToInt16 v) mod 65536 in
  [u mod 256; (u / 256) mod 256].

Definition writeString (s : string) : list Z :=
  map (fun a => Z.of_N (N_of_ascii a)) (list_ascii_of_string s).

(** Line 54: [Math.max(-1, Math.min(1, samples[i]))]. *)
Definition clamp (s : number) : number :=
  Math_max (Fin (-1)) (Math_min (Fin 1) s).

(** Lines 54-55: the value stored for one sample,
    [ToInt16(clamp(sample) * 0x7FFF)]. *)
Definition pcm16 (s : number) : Z :=
  ToInt16 (times (clamp s) 0x7FFF).

Definition header (n : Z) (sampleRate : Z) : list Z :=
  writeString "RIFF" ++ setUint32 (36 + n * 2) ++
  writeString "WAVE" ++ writeString "fmt " ++
  setUint32 16 ++ setUint16 1 ++ setUint16 1 ++
  setUint32 sampleRate ++ setUint32 (sampleRate * 2) ++
  setUint16 2 ++ setUint16 16 ++
  writeString "data" ++ setUint32 (n * 2).

(** [encodeWAV(samples, sampleRate)]: the bytes of the blob. *)
Definition encodeWAV (samples : list number) (sampleRate : Z) : list Z :=
  header (Z.of_nat (List.length samples)) sampleRate ++
  flat_map (fun s => setInt16 (times (clamp s) 0x7FFF)) samples.

(** [processAudioBuffer] for a buffer whose rate is the target rate; both
    callers create their buffer with [createBuffer(1, n, 16000)], so the
    resampling branch is not taken and the channel data is encoded as it
    is. *)
Definition targetSampleRate : Z := 16000.

Definition processAudioBuffer (channelData : list number) : list Z :=
  encodeWAV channelData targetSampleRate.

End WAVEncoder.

(** ** Helpers (config/helpers) and the browser's local storage *)

Module Helpers.

(** The stored user profile, as far as the page reads it. *)
Record User := {
  language : option jsstring;
  id : option jsstring;
  userId : option jsstring
}.

(** What [JSON.parse] makes of the [userData] item. *)
Inductive JsonUser : Type :=
| JsonThrows
| JsonNotObject
| JsonObject (u : User).

(** The items of [localStorage] the page reads; [None] is a missing item. *)
Record LocalStorage := {
  listenerLanguage : option jsstring;
  userDataItem : option (jsstring * JsonUser)
}.

Inductive result (A : Type) : Type :=
| Ok (a : A)
| Throw.
Arguments Ok {A} a.
Arguments Throw {A}.

Definition defaultLanguage : jsstring := lit "en-US".

(** [getItemLocalStorage(localStorageUserKey, true)] followed by the
    object test of [getUserData]. *)
Definition getUserData (ls : LocalStorage) : result (option User) :=
  match userDataItem ls with
  | None => Ok None
  | Some ([], _) => Ok None
  | Some (_, JsonThrows) => Throw
  | Some (_, JsonNotObject) => Ok None
  | Some (_, JsonObject u) => Ok (Some u)
  end.

(** [getUserLanguage] (lines 313-327 of the helpers file). *)
Definition getUserLanguage (ls : LocalStorage) : jsstring :=
  match getUserData ls with
  | Throw => defaultLanguage
  | Ok userData =>
      let profile :=
        match userData with Some u => language u | None => None end in
      if truthy profile then or_else profile []
      else if truthy (listenerLanguage ls)
           then or_else (listenerLanguage ls) []
           else defaultLanguage
  end.

End Helpers.

(** ** The caption data-message effect (joinpage.tsx, lines 222-278) *)

Module Captions.

Inductive Role : Type := Creator | Listener | OtherRole.

Definition is_listener (r : Role) : bool :=
  match r with Listener => true | _ => false end.

Record DataMessage := {
  type_ : jsstring;
  text : option jsstring;
  language : jsstring;
  timestamp : Z;
  isLocal : bool;
  participantName : jsstring
}.

(** Requests and playback started by the effect.  A fetch carries the
    identifier under which its continuation is suspended. *)
Inductive Effect : Type :=
| FetchTranslate (id : nat) (text targetLang sourceLang : jsstring)
| FetchTTS (id : nat) (text language : jsstring)
| AudioPlay (audioContent : jsstring).

(** A suspended promise chain together with the variables its closure
    captured. *)
Inductive Continuation : Type :=
| AwaitTranslate (lastMsg : DataMessage) (myLanguage : jsstring)
| AwaitTTS.

Record State := {
  captionText : jsstring;
  messages : list DataMessage;
  captionTimeoutRef : option nat;
  (** timeouts that were scheduled and have neither fired nor been cleared *)
  timers : list nat;
  pending : list (nat * Continuation);
  (** next identifier handed out by [setTimeout] or to a fetch *)
  nextId : nat
}.

Definition initial : State :=
  {| captionText := []; messages := []; captionTimeoutRef := None;
     timers := []; pending := []; nextId := 1 |}.

Definition setCaption (v : jsstring) (st : State) : State :=
  {| captionText := v; messages := messages st;
     captionTimeoutRef := captionTimeoutRef st; timers := timers st;
     pending := pending st; nextId := nextId st |}.

Definition setMessages (v : list DataMessage) (st : State) : State :=
  {| captionText := captionText st; messages := v;
     captionTimeoutRef := captionTimeoutRef st; timers := timers st;
     pending := pending st; nextId := nextId st |}.

(** [if (captionTimeoutRef.current) clearTimeout(captionTimeoutRef.current)];
    the reference itself keeps the stale identifier. *)
Definition clearCaptionTimeout (st : State) : State :=
  match captionTimeoutRef st with
  | Some t =>
      {| captionText := captionText st; messages := messages st;
         captionTimeoutRef := captionTimeoutRef st;
         timers := filter (fun u => negb (Nat.eqb u t)) (timers st);
         pending := pending st; nextId := nextId st |}
  | None => st
  end.

(** [captionTimeoutRef.current = setTimeout(() => setCaption(''), 5000)]. *)
Definition scheduleClear (st : State) : State :=
  {| captionText := captionText st; messages := messages st;
     captionTimeoutRef := Some (nextId st);
     timers := timers st ++ [nextId st];
     pending := pending st; nextId := S (nextId st) |}.

Definition suspend (k : Continuation) (st : State) : State :=
  {| captionText := captionText st; messages := messages st;
     captionTimeoutRef := captionTimeoutRef st; timers := timers st;
     pending := pending st ++ [(nextId st, k)]; nextId := S (nextId st) |}.

Fixpoint lookup (i : nat) (l : list (nat * Continuation)) : option Continuation :=
  match l with
  | (j, k) :: l' => if Nat.eqb i j then Some k else lookup i l'
  | [] => None
  end.

Definition resume (i : nat) (st : State) : State :=
  {| captionText := captionText st; messages := messages st;
     captionTimeoutRef := captionTimeoutRef st; timers := timers st;
     pending := filter (fun e => negb (Nat.eqb (fst e) i)) (pending st);
     nextId := nextId st |}.

(** [dataMessages[dataMessages.length - 1]], after the emptiness test. *)
Definition lastMsg_of (dataMessages : list DataMessage) : option DataMessage :=
  match dataMessages with
  | [] => None
  | _ => nth_error dataMessages (List.length dataMessages - 1)
  end.

(** Line 229: [lastMsg.type === 'caption' && lastMsg.text && lastMsg.text.trim()]. *)
Definition accepted (m : DataMessage) : bool :=
  jsstring_eqb (type_ m) (lit "caption") &&
  truthy (text m) &&
  truthy (option_map trim (text m)).

(** Line 234: [localStorage.getItem("listenerLanguage") || "en"]. *)
Definition myLanguage (listenerLanguage : option jsstring) : jsstring :=
  or_else listenerLanguage (lit "en").

Definition withText (m : DataMessage) (t : jsstring) (l : jsstring) : DataMessage :=
  {| type_ := type_ m; text := Some t; language := l;
     timestamp := timestamp m; isLocal := isLocal m;
     participantName := participantName m |}.

Definition withLanguage (m : DataMessage) (l : jsstring) : DataMessage :=
  {| type_ := type_ m; text := text m; language := l;
     timestamp := timestamp m; isLocal := isLocal m;
     participantName := participantName m |}.

(** The body of the effect, run with the current [dataMessages] and the
    [listenerLanguage] item read at that moment. *)
Definition captionEffect (role : Role) (dataMessages : list DataMessage)
    (listenerLanguage : option jsstring) (st : State) : State * list Effect :=
  match lastMsg_of dataMessages with
  | None => (st, [])
  | Some lastMsg =>
      if accepted lastMsg then
        let st := clearCaptionTimeout (setMessages [] (setCaption [] st)) in
        let lang := myLanguage listenerLanguage in
        let source := or_else (text lastMsg) [] in
        if is_listener role then
          (suspend (AwaitTranslate lastMsg lang) st,
           [FetchTranslate (nextId st) source lang (lit "auto")])
        else
          (scheduleClear (setMessages [lastMsg] (setCaption source st)), [])
      else (st, [])
  end.

(** How the translation promise chain settles: the fetch or the JSON
    decoding rejects, or a decoded body arrives whose [translatedText]
    may be missing. *)
Inductive TranslateOutcome : Type :=
| TranslateRejected
| TranslateData (translatedText : option jsstring).

Inductive TtsOutcome : Type :=
| TtsRejected
| TtsData (audioContent : option jsstring).

(** Lines 247-265, the [then] handler of the translation. *)
Definition onTranslated (lastMsg : DataMessage) (lang : jsstring)
    (translated : option jsstring) (st : State) : State * list Effect :=
  let translatedText := or_else translated (or_else (text lastMsg) []) in
  let st := setCaption translatedText st in
  let st := setMessages [withText lastMsg translatedText lang] st in
  let st := scheduleClear st in
  (suspend AwaitTTS st, [FetchTTS (nextId st) translatedText lang]).

(** Lines 266-270, the [catch] handler of the translation. *)
Definition onTranslateFailed (lastMsg : DataMessage) (lang : jsstring)
    (st : State) : State * list Effect :=
  let st := setCaption (or_else (text lastMsg) []) st in
  let st := setMessages [withLanguage lastMsg lang] st in
  (scheduleClear st, []).

Inductive Event : Type :=
| DataMessages (dataMessages : list DataMessage)
               (listenerLanguage : option jsstring)
| TranslateSettled (id : nat) (outcome : TranslateOutcome)
| TtsSettled (id : nat) (outcome : TtsOutcome)
| TimerFired (id : nat).

Definition step (role : Role) (st : State) (ev : Event) : State * list Effect :=
  match ev with
  | DataMessages dataMessages listenerLanguage =>
      captionEffect role dataMessages listenerLanguage st
  | TranslateSettled i outcome =>
      match lookup i (pending st) with
      | Some (AwaitTranslate lastMsg lang) =>
          match outcome with
          | TranslateData translated =>
              onTranslated lastMsg lang translated (resume i st)
          | TranslateRejected =>
              onTranslateFailed lastMsg lang (resume i st)
          end
      | _ => (st, [])
      end
  | TtsSettled i outcome =>
      match lookup i (pending st) with
      | Some AwaitTTS =>
          match outcome with
          | TtsData (Some (c :: content)) =>
              (resume i st, [AudioPlay (c :: content)])
          | _ => (resume i st, [])
          end
      | _ => (st, [])
      end
  | TimerFired t =>
      if existsb (Nat.eqb t) (timers st) then
        (setCaption []
           {| captionText := captionText st; messages := messages st;
              captionTimeoutRef := captionTimeoutRef st;
              timers := filter (fun u => negb (Nat.eqb u t)) (timers st);
              pending := pending st; nextId := nextId st |}, [])
      else (st, [])
  end.

Fixpoint run (role : Role) (st : State) (evs : list Event) : State * list Effect :=
  match evs with
  | [] => (st, [])
  | ev :: evs' =>
      let (st1, out1) := step role st ev in
      let (st2, out2) := run role st1 evs' in
      (st2, out1 ++ out2)
  end.

(** The target language as the written specification resolves it:
    explicit override, else profile preference, else default. *)
Definition specified_target (ls : Helpers.LocalStorage) : jsstring :=
  if truthy (Helpers.listenerLanguage ls) then
    or_else (Helpers.listenerLanguage ls) []
  else
    match Helpers.getUserData ls with
    | Helpers.Ok (Some u) =>
        or_else (Helpers.language u) Helpers.defaultLanguage
    | _ => Helpers.defaultLanguage
    end.

(** Predicates used to state the properties of the effect. *)

(** The text of the message is absent, empty or whitespace only. *)
Definition blank (m : DataMessage) : Prop :=
  text m = None \/ text m = Some [] \/
  exists t, text m = Some t /\ forallb is_whitespace t = true.

(** Identifiers in use are below the next one to be handed out, and the
    history shows at most one message. *)
Record wf (st : State) : Prop := {
  wf_pending : Forall (fun e => (fst e < nextId st)%nat) (pending st);
  wf_timers : Forall (fun t => (t < nextId st)%nat) (timers st);
  wf_ref : forall t, captionTimeoutRef st = Some t -> (t < nextId st)%nat;
  wf_messages : (List.length (messages st) <= 1)%nat
}.

(** The event is the settlement of translation [i]. *)
Definition settles (i : nat) (ev : Event) : Prop :=
  exists outcome, ev = TranslateSettled i outcome.

Definition isFetchTTS (e : Effect) : bool :=
  match e with FetchTTS _ _ _ => true | _ => false end.

(** Sample data. *)

Definition example_caption (t : option jsstring) : DataMessage :=
  {| type_ := lit "caption"; text := t; language := lit "en";
     timestamp := 0; isLocal := false; participantName := lit "A" |}.

Definition shown : State :=
  {| captionText := lit "hola"; messages := [example_caption (Some (lit "hola"))];
     captionTimeoutRef := Some 3%nat; timers := [3%nat];
     pending := [(4%nat, AwaitTTS)]; nextId := 5 |}.

Definition translating : State :=
  {| captionText := []; messages := []; captionTimeoutRef := None;
     timers := [];
     pending := [(1%nat, AwaitTranslate (example_caption (Some (lit "hello"))) (lit "en"))];
     nextId := 2 |}.

Definition spanish_profile : Helpers.LocalStorage :=
  {| Helpers.listenerLanguage := None;
     Helpers.userDataItem :=
       Some (lit "{...}",
             Helpers.JsonObject
               {| Helpers.language := Some (lit "es-ES");
                  Helpers.id := Some (lit "7"); Helpers.userId := None |}) |}.

End Captions.

(** ** Capture and chunk dispatch (joinpage.tsx, lines 303-539)

    One recording session: the state [startSpeech] sets up, the worklet
    message handler it installs, [processAudioChunk] with its three
    suspension points ([arrayBuffer()], [fetch], [json()]) and
    [stopSpeech].  Awaits on promises that are already resolved resume
    before the next browser event and are not separate steps. *)

Module Dispatch.

Import Captions.

(** What the component reads from its context and from storage.  The
    model takes local storage to be the same when the component renders
    and when a request is built. *)
Record Env := {
  role : Role;
  roomId : option jsstring;
  (** the value returned by [getUserId()] *)
  userId : option jsstring;
  storage : Helpers.LocalStorage
}.

(** Line 122: [const userLanguage = Helpers.getUserLanguage()]. *)
Definition userLanguage (env : Env) : jsstring :=
  Helpers.getUserLanguage (storage env).

(** Lines 306-308. *)
Definition getTargetLanguageCode (env : Env) : jsstring :=
  or_else (Helpers.listenerLanguage (storage env)) (userLanguage env).

(** Body of the POST to [/audio/process]; [audio] holds the bytes that are
    sent base64-encoded. *)
Record Request := {
  req_userId : jsstring;
  req_roomId : jsstring;
  chunkIndex : Z;
  totalChunks : Z;
  audio : list Z;
  targetLanguageCode : jsstring;
  audioFormat : jsstring
}.

Record TranscriptionResult := {
  res_text : option jsstring;
  res_language : option jsstring;
  res_audioContent : option jsstring
}.

(** Observable actions.  [Invoked] marks every call of
    [processAudioChunk] with the index and marker it was passed. *)
Inductive Label : Type :=
| Invoked (chunkIndex totalChunks : Z)
| Fetch (req : Request)
| Toast (message : jsstring)
| AudioPlay (audioContent : jsstring)
| Transcription (text language : jsstring).

Inductive Phase : Type := AwaitArrayBuffer | AwaitFetch | AwaitJson.

(** Who awaits the call: the worklet message handler of [startSpeech] or
    [stopSpeech]. *)
Inductive Caller : Type := FromWorklet | FromStop.

(** An invocation of [processAudioChunk] suspended at an [await].  [cell]
    names the render whose [isProcessingAudio] variable the invoked
    closure captured: the variable is declared with [let] in the component
    body (line 303), so every render has its own. *)
Record Task := {
  caller : Caller;
  cell : nat;
  phase : Phase;
  task_userId : jsstring;
  task_roomId : jsstring;
  task_blob : list Z;
  task_chunkIndex : Z;
  task_totalChunks : Z
}.

Record State := {
  audioChunksRef : list (list number);
  chunkIndexRef : Z;
  (** [audioContextRef.current] is not null *)
  audioContextRef : bool;
  (** variables of the [startSpeech] call captured by the message handler *)
  audioBuffer : list (list number);
  bufferSize : Z;
  overlapBuffer : option (list number);
  (** the render in which [startSpeech] ran *)
  captureRender : nat;
  (** the renders whose [isProcessingAudio] is [true] *)
  isProcessingAudio : list nat;
  isProcessing : bool;
  isRecording : bool;
  tasks : list Task
}.

Definition targetBufferSize : Z := 32000.
Definition overlapSize : Z := 8000.

(** The state [startSpeech] establishes (lines 480-489) when it runs in
    render [r] for a creator whose microphone was granted. *)
Definition startSpeech (r : nat) : State :=
  {| audioChunksRef := []; chunkIndexRef := 0; audioContextRef := true;
     audioBuffer := []; bufferSize := 0; overlapBuffer := None;
     captureRender := r; isProcessingAudio := [];
     isProcessing := false; isRecording := true; tasks := [] |}.

Definition set_audioChunksRef v st :=
  {| audioChunksRef := v; chunkIndexRef := chunkIndexRef st;
     audioContextRef := audioContextRef st; audioBuffer := audioBuffer st;
     bufferSize := bufferSize st; overlapBuffer := overlapBuffer st;
     captureRender := captureRender st;
     isProcessingAudio := isProcessingAudio st;
     isProcessing := isProcessing st; isRecording := isRecording st;
     tasks := tasks st |}.

Definition set_chunkIndexRef v st :=
  {| audioChunksRef := audioChunksRef st; chunkIndexRef := v;
     audioContextRef := audioContextRef st; audioBuffer := audioBuffer st;
     bufferSize := bufferSize st; overlapBuffer := overlapBuffer st;
     captureRender := captureRender st;
     isProcessingAudio := isProcessingAudio st;
     isProcessing := isProcessing st; isRecording := isRecording st;
     tasks := tasks st |}.

Definition set_audioContextRef v st :=
  {| audioChunksRef := audioChunksRef st; chunkIndexRef := chunkIndexRef st;
     audioContextRef := v; audioBuffer := audioBuffer st;
     bufferSize := bufferSize st; overlapBuffer := overlapBuffer st;
     captureRender := captureRender st;
     isProcessingAudio := isProcessingAudio st;
     isProcessing := isProcessing st; isRecording := isRecording st;
     tasks := tasks st |}.

Definition set_buffer (b : list (list number)) (n : Z) st :=
  {| audioChunksRef := audioChunksRef st; chunkIndexRef := chunkIndexRef st;
     audioContextRef := audioContextRef st; audioBuffer := b;
     bufferSize := n; overlapBuffer := overlapBuffer st;
     captureRender := captureRender st;
     isProcessingAudio := isProcessingAudio st;
     isProcessing := isProcessing st; isRecording := isRecording st;
     tasks := tasks st |}.

Definition set_overlapBuffer v st :=
  {| audioChunksRef := audioChunksRef st; chunkIndexRef := chunkIndexRef st;
     audioContextRef := audioContextRef st; audioBuffer := audioBuffer st;
     bufferSize := bufferSize st; overlapBuffer := v;
     captureRender := captureRender st;
     isProcessingAudio := isProcessingAudio st;
     isProcessing := isProcessing st; isRecording := isRecording st;
     tasks := tasks st |}.

Definition set_isProcessingAudio v st :=
  {| audioChunksRef := audioChunksRef st; chunkIndexRef := chunkIndexRef st;
     audioContextRef := audioContextRef st; audioBuffer := audioBuffer st;
     bufferSize := bufferSize st; overlapBuffer := overlapBuffer st;
     captureRender := captureRender st;
     isProcessingAudio := v;
     isProcessing := isProcessing st; isRecording := isRecording st;
     tasks := tasks st |}.

Definition setIsProcessing v st :=
  {| audioChunksRef := audioChunksRef st; chunkIndexRef := chunkIndexRef st;
     audioContextRef := audioContextRef st; audioBuffer := audioBuffer st;
     bufferSize := bufferSize st; overlapBuffer := overlapBuffer st;
     captureRender := captureRender st;
     isProcessingAudio := isProcessingAudio st;
     isProcessing := v; isRecording := isRecording st;
     tasks := tasks st |}.

Definition setIsRecording v st :=
  {| audioChunksRef := audioChunksRef st; chunkIndexRef := chunkIndexRef st;
     audioContextRef := audioContextRef st; audioBuffer := audioBuffer st;
     bufferSize := bufferSize st; overlapBuffer := overlapBuffer st;
     captureRender := captureRender st;
     isProcessingAudio := isProcessingAudio st;
     isProcessing := isProcessing st; isRecording := v;
     tasks := tasks st |}.

Definition set_tasks v st :=
  {| audioChunksRef := audioChunksRef st; chunkIndexRef := chunkIndexRef st;
     audioContextRef := audioContextRef st; audioBuffer := audioBuffer st;
     bufferSize := bufferSize st; overlapBuffer := overlapBuffer st;
     captureRender := captureRender st;
     isProcessingAudio := isProcessingAudio st;
     isProcessing := isProcessing st; isRecording := isRecording st;
     tasks := v |}.

(** Reading and writing the [isProcessingAudio] variable of render [c]. *)
Definition busy (c : nat) (st : State) : bool :=
  existsb (Nat.eqb c) (isProcessingAudio st).

Definition acquire (c : nat) (st : State) : State :=
  set_isProcessingAudio (c :: isProcessingAudio st) st.

Definition release (c : nat) (st : State) : State :=
  set_isProcessingAudio
    (filter (fun d => negb (Nat.eqb d c)) (isProcessingAudio st)) st.

Inductive Started : Type := Completed | Suspended.

(** [processAudioChunk] up to its first suspension (lines 323-336),
    called through the closure of render [c]. *)
Definition processAudioChunk (env : Env) (c : nat) (who : Caller)
    (audioBlob : list Z) (index total : Z) (st : State)
    : State * list Label * Started :=
  if busy c st then (st, [Invoked index total], Completed)
  else
    let st := acquire c st in
    match userId env, roomId env with
    | Some (u :: us), Some (r :: rs) =>
        let st := setIsProcessing true st in
        let task :=
          {| caller := who; cell := c; phase := AwaitArrayBuffer;
             task_userId := u :: us; task_roomId := r :: rs;
             task_blob := audioBlob;
             task_chunkIndex := index; task_totalChunks := total |} in
        (set_tasks (tasks st ++ [task]) st, [Invoked index total], Suspended)
    | _, _ =>
        (release c st,
         [Invoked index total;
          Toast (lit "Missing user or room information")],
         Completed)
    end.

(** Lines 531-534: what the message handler does once its call of
    [processAudioChunk] has returned. *)
Definition afterChunk (st : State) : State :=
  set_chunkIndexRef (chunkIndexRef st + 1) (set_buffer [] 0 st).

(** Lines 450-454: the end of [stopSpeech]. *)
Definition finishStop (st : State) : State * list Label :=
  (set_chunkIndexRef 0 (setIsRecording false st),
   [Toast (lit "Recording stopped")]).

(** Line 444 followed by the end of [stopSpeech]. *)
Definition afterFinalChunk (st : State) : State * list Label :=
  finishStop (set_audioChunksRef [] st).

Definition continue (who : Caller) (st : State) : State * list Label :=
  match who with
  | FromWorklet => (afterChunk st, [])
  | FromStop => afterFinalChunk st
  end.

(** [combinedAudio.slice(combinedAudio.length - overlapSize)], or the whole
    buffer when it is shorter (lines 514-518). *)
Definition overlapOf (combinedAudio : list number) : list number :=
  let n := Z.of_nat (List.length combinedAudio) in
  if overlapSize <=? n
  then skipn (Z.to_nat (n - overlapSize)) combinedAudio
  else combinedAudio.

(** The worklet message handler (lines 490-539) up to its first
    suspension.  [combinedAudio] is allocated with
    [bufferSize + overlapBuffer.length] elements and filled with the
    overlap followed by the buffered chunks. *)
Definition onmessage (env : Env) (inputData : list number) (st : State)
    : State * list Label :=
  let st := set_buffer (audioBuffer st ++ [inputData])
                       (bufferSize st + Z.of_nat (List.length inputData)) st in
  if targetBufferSize <=? bufferSize st then
    let combinedAudio :=
      match overlapBuffer st with
      | Some overlap => overlap ++ List.concat (audioBuffer st)
      | None => List.concat (audioBuffer st)
      end in
    let st := set_overlapBuffer (Some (overlapOf combinedAudio)) st in
    if negb (audioContextRef st) then (st, [])
    else
      let wavBlob := WAVEncoder.processAudioBuffer combinedAudio in
      let '(st, out, started) :=
        processAudioChunk env (captureRender st) FromWorklet wavBlob
                          (chunkIndexRef st) (-1) st in
      match started with
      | Completed => (afterChunk st, out)
      | Suspended => (st, out)
      end
  else (st, []).

(** [stopSpeech] (lines 404-455) called from render [r]; the wait for
    [AudioContext.close()] is not a separate step. *)
Definition stopSpeech (env : Env) (r : nat) (st : State)
    : State * list Label :=
  let st := set_audioContextRef false st in
  match audioChunksRef st with
  | [] => finishStop st
  | _ :: _ =>
      let combinedAudio := List.concat (audioChunksRef st) in
      let wavBlob := WAVEncoder.processAudioBuffer combinedAudio in
      let '(st, out, started) :=
        processAudioChunk env r FromStop wavBlob
                          (chunkIndexRef st) (chunkIndexRef st + 1) st in
      match started with
      | Completed =>
          let (st, out') := afterFinalChunk st in (st, out ++ out')
      | Suspended => (st, out)
      end
  end.

(** How an awaited promise of a task settles. *)
Inductive Resolution : Type :=
| Rejected
| ArrayBufferReady
| Responded (ok : bool) (status : Z)
| Parsed (result : TranscriptionResult).

Fixpoint remove_nth {A : Type} (k : nat) (l : list A) : list A :=
  match k, l with
  | O, _ :: l' => l'
  | S k', x :: l' => x :: remove_nth k' l'
  | _, [] => []
  end.

Fixpoint replace_nth {A : Type} (k : nat) (y : A) (l : list A) : list A :=
  match k, l with
  | O, _ :: l' => y :: l'
  | S k', x :: l' => x :: replace_nth k' y l'
  | _, [] => []
  end.

Definition with_phase (p : Phase) (t : Task) : Task :=
  {| caller := caller t; cell := cell t; phase := p;
     task_userId := task_userId t; task_roomId := task_roomId t;
     task_blob := task_blob t;
     task_chunkIndex := task_chunkIndex t;
     task_totalChunks := task_totalChunks t |}.

(** The [finally] block (lines 398-401) of task number [k], followed by
    the code of the caller that awaited the call. *)
Definition finish (k : nat) (t : Task) (out : list Label) (st : State)
    : State * list Label :=
  let st := set_tasks (remove_nth k (tasks st)) st in
  let st := release (cell t) (setIsProcessing false st) in
  let (st, out') := continue (caller t) st in
  (st, out ++ out').

(** The [catch] block (lines 395-397). *)
Definition failed (k : nat) (t : Task) (st : State) : State * list Label :=
  finish k t [Toast (lit "Failed to process audio")] st.

(** Lines 339-354: the request that is posted. *)
Definition requestOf (env : Env) (t : Task) : Request :=
  {| req_userId := task_userId t; req_roomId := task_roomId t;
     chunkIndex := task_chunkIndex t; totalChunks := task_totalChunks t;
     audio := task_blob t;
     targetLanguageCode := getTargetLanguageCode env;
     audioFormat := lit "wav" |}.

(** Lines 360-394: handling of the decoded response. *)
Definition onResult (env : Env) (result : TranscriptionResult) : list Label :=
  if truthy (res_text result) && truthy (option_map trim (res_text result))
     && truthy (res_audioContent result)
  then
    (if is_listener (role env)
     then [AudioPlay (or_else (res_audioContent result) [])] else [])
    ++ [Transcription (or_else (res_text result) [])
          (or_else (res_language result) (userLanguage env))]
  else [].

(** Resumption of task number [k] of the suspended invocations. *)
Definition settle (env : Env) (k : nat) (res : Resolution) (st : State)
    : State * list Label :=
  match nth_error (tasks st) k with
  | None => (st, [])
  | Some t =>
      match phase t, res with
      | _, Rejected => failed k t st
      | AwaitArrayBuffer, ArrayBufferReady =>
          (set_tasks (replace_nth k (with_phase AwaitFetch t) (tasks st)) st,
           [Fetch (requestOf env t)])
      | AwaitFetch, Responded true _ =>
          (set_tasks (replace_nth k (with_phase AwaitJson t) (tasks st)) st,
           [])
      | AwaitFetch, Responded false _ => failed k t st
      | AwaitJson, Parsed result => finish k t (onResult env result) st
      | _, _ => (st, [])
      end
  end.

Inductive Event : Type :=
| Frame (inputData : list number)
| Settle (k : nat) (res : Resolution)
| Stop (r : nat).

Definition step (env : Env) (st : State) (ev : Event) : State * list Label :=
  match ev with
  | Frame inputData => onmessage env inputData st
  | Settle k res => settle env k res st
  | Stop r => stopSpeech env r st
  end.

Fixpoint run (env : Env) (st : State) (evs : list Event) : State * list Label :=
  match evs with
  | [] => (st, [])
  | ev :: evs' =>
      let (st1, out1) := step env st ev in
      let (st2, out2) := run env st1 evs' in
      (st2, out1 ++ out2)
  end.

(** Projections of a trace. *)
Definition invokedIndex (l : Label) : list Z :=
  match l with Invoked i _ => [i] | _ => [] end.

Definition fetched (l : Label) : list Request :=
  match l with Fetch r => [r] | _ => [] end.

Definition invokedIndices (out : list Label) : list Z :=
  flat_map invokedIndex out.

Definition requests (out : list Label) : list Request :=
  flat_map fetched out.

(** Invocations whose transcription request is posted and not yet
    answered or decoded. *)
Definition requestOpen (t : Task) : bool :=
  match phase t with AwaitArrayBuffer => false | _ => true end.

(** What holds throughout a recording session started in render [r0]:
    nothing is ever stored in [audioChunksRef], and either no invocation is
    suspended and every [isProcessingAudio] is false, or exactly one is,
    made by the message handler, and only the handler's variable is true. *)
Inductive session (r0 : nat) (st : State) : Prop :=
| session_idle :
    audioChunksRef st = [] -> captureRender st = r0 ->
    tasks st = [] -> isProcessingAudio st = [] -> session r0 st
| session_busy t :
    audioChunksRef st = [] -> captureRender st = r0 ->
    tasks st = [t] -> cell t = r0 -> caller t = FromWorklet ->
    isProcessingAudio st = [r0] -> session r0 st.

(** A resolution with which the suspended invocation leaves
    [processAudioChunk]: a rejection or exception at any [await], a response
    that is not OK, or the decoded body. *)
Definition exits (p : Phase) (res : Resolution) : bool :=
  match res, p with
  | Rejected, _ => true
  | Responded false _, AwaitFetch => true
  | Parsed _, AwaitJson => true
  | _, _ => false
  end.

Definition exitsAt (st : State) (k : nat) (res : Resolution) : bool :=
  match nth_error (tasks st) k with
  | Some t => exits (phase t) res
  | None => false
  end.

Definition example_env : Env :=
  {| role := Creator; roomId := Some (lit "room-1"); userId := Some (lit "user-1");
     storage := {| Helpers.listenerLanguage := None;
                   Helpers.userDataItem := None |} |}.

Definition silence (n : N) : list number := repeat (Fin 0) (N.to_nat n).

Definition hello : TranscriptionResult :=
  {| res_text := Some (lit "hello"); res_language := None;
     res_audioContent := Some (lit "b64") |}.

End Dispatch.

(** ** Reading a blob back (the [DataView] getters, little-endian) *)

Module DataView.

Definition getUint8 (bytes : list Z) (offset : nat) : Z := nth offset bytes 0.

Definition getUint16 (bytes : list Z) (offset : nat) : Z :=
  getUint8 bytes offset + 256 * getUint8 bytes (offset + 1).

Definition getUint32 (bytes : list Z) (offset : nat) : Z :=
  getUint8 bytes offset + 256 * getUint8 bytes (offset + 1)
  + 65536 * getUint8 bytes (offset + 2) + 16777216 * getUint8 bytes (offset + 3).

Definition getInt16 (bytes : list Z) (offset : nat) : Z :=
  let u := getUint16 bytes offset in
  if u <? 32768 then u else u - 65536.

Definition isByte (b : Z) : Prop := 0 <= b < 256.

End DataView.

(** ** The samples a [Float32Array] can hold *)

Module Float32.

(** A finite binary32 value: [m * 2^e] with a 24-bit significand and an
    exponent between -149 and 104. *)
Definition binary32 (q : Q) : Prop :=
  exists m e : Z,
    Z.abs m < 16777216 /\ -149 <= e <= 104 /\
    (q == inject_Z m * (2 # 1) ^ e)%Q.

(** A multiple of [2^-24] in [-1, 1] that the encoder stores as [v]: the
    least [k / 2^24] with [k * 32767 / 2^24 >= v] for [v >= 0], and its
    mirror image for [v < 0]. *)
Definition sampleFor (v : Z) : Q :=
  if 0 <=? v
  then ((v * 16777216 + 32766) / 32767) # 16777216
  else (- ((- v * 16777216 + 32766) / 32767)) # 16777216.

End Float32.

(** ** Observations on a recording session *)

Module Session.

Import Captions Dispatch.

(** Number of samples held in the handler's [audioBuffer]. *)
Definition buffered (st : State) : Z :=
  Z.of_nat (List.length (List.concat (audioBuffer st))).

(** The saved overlap, when there is one, has exactly [overlapSize]
    samples. *)
Definition overlapFull (st : State) : Prop :=
  match overlapBuffer st with
  | Some overlap => Z.of_nat (List.length overlap) = overlapSize
  | None => True
  end.

Definition played (l : Label) : list jsstring :=
  match l with AudioPlay a => [a] | _ => [] end.

Definition transcribed (l : Label) : list jsstring :=
  match l with Transcription t _ => [t] | _ => [] end.

Definition toasted (l : Label) : list jsstring :=
  match l with Toast m => [m] | _ => [] end.

(** What every posted request looks like. *)
Definition wellFormed (env : Env) (q : Request) : Prop :=
  totalChunks q = -1 /\
  audioFormat q = lit "wav" /\
  userId env = Some (req_userId q) /\ req_userId q <> [] /\
  roomId env = Some (req_roomId q) /\ req_roomId q <> [] /\
  targetLanguageCode q = getTargetLanguageCode env /\
  (exists n, 32000 <= n /\ Z.of_nat (List.length (audio q)) = 44 + 2 * n).

(** The same for a suspended invocation. *)
Definition taskWellFormed (env : Env) (t : Task) : Prop :=
  task_totalChunks t = -1 /\
  userId env = Some (task_userId t) /\ task_userId t <> [] /\
  roomId env = Some (task_roomId t) /\ task_roomId t <> [] /\
  (exists n, 32000 <= n /\ Z.of_nat (List.length (task_blob t)) = 44 + 2 * n).

(** The state after the handler has stored a frame, the window it then
    assembles and the state after the overlap has been saved. *)
Definition stored (inputData : list number) (st : State) : State :=
  set_buffer (audioBuffer st ++ [inputData])
             (bufferSize st + Z.of_nat (List.length inputData)) st.

Definition window (inputData : list number) (st : State) : list number :=
  match overlapBuffer st with
  | Some overlap => overlap ++ List.concat (audioBuffer st ++ [inputData])
  | None => List.concat (audioBuffer st ++ [inputData])
  end.

Definition overlapped (inputData : list number) (st : State) : State :=
  set_overlapBuffer (Some (overlapOf (window inputData st)))
                    (stored inputData st).

Definition submitted (inputData : list number) (st : State) (u r : jsstring)
    : Task :=
  {| caller := FromWorklet; cell := captureRender st;
     phase := AwaitArrayBuffer; task_userId := u; task_roomId := r;
     task_blob := WAVEncoder.processAudioBuffer (window inputData st);
     task_chunkIndex := chunkIndexRef st; task_totalChunks := -1 |}.

(** The five ways the message handler can go. *)
Inductive onmessage_outcome (env : Env) (inputData : list number) (st : State)
    : State * list Label -> Prop :=
| frame_buffered :
    bufferSize (stored inputData st) < targetBufferSize ->
    onmessage_outcome env inputData st (stored inputData st, [])
| frame_after_stop :
    targetBufferSize <= bufferSize (stored inputData st) ->
    audioContextRef st = false ->
    onmessage_outcome env inputData st (overlapped inputData st, [])
| frame_dropped :
    targetBufferSize <= bufferSize (stored inputData st) ->
    audioContextRef st = true ->
    busy (captureRender st) st = true ->
    onmessage_outcome env inputData st
      (afterChunk (overlapped inputData st),
       [Invoked (chunkIndexRef st) (-1)])
| frame_refused :
    targetBufferSize <= bufferSize (stored inputData st) ->
    audioContextRef st = true ->
    busy (captureRender st) st = false ->
    truthy (userId env) && truthy (roomId env) = false ->
    onmessage_outcome env inputData st
      (afterChunk (release (captureRender st)
                     (acquire (captureRender st) (overlapped inputData st))),
       [Invoked (chunkIndexRef st) (-1);
        Toast (lit "Missing user or room information")])
| frame_submitted u r :
    targetBufferSize <= bufferSize (stored inputData st) ->
    audioContextRef st = true ->
    busy (captureRender st) st = false ->
    userId env = Some u -> u <> [] -> roomId env = Some r -> r <> [] ->
    onmessage_outcome env inputData st
      (set_tasks (tasks st ++ [submitted inputData st u r])
         (setIsProcessing true
            (acquire (captureRender st) (overlapped inputData st))),
       [Invoked (chunkIndexRef st) (-1)]).

(** The ways the resumption of task [k] can go. *)
Inductive settle_outcome (env : Env) (k : nat) (res : Resolution) (st : State)
    : State * list Label -> Prop :=
| settle_ignored :
    (forall t, nth_error (tasks st) k = Some t -> exits (phase t) res = false) ->
    settle_outcome env k res st (st, [])
| settle_posted t :
    nth_error (tasks st) k = Some t -> phase t = AwaitArrayBuffer ->
    res = ArrayBufferReady ->
    settle_outcome env k res st
      (set_tasks (replace_nth k (with_phase AwaitFetch t) (tasks st)) st,
       [Fetch (requestOf env t)])
| settle_answered t status :
    nth_error (tasks st) k = Some t -> phase t = AwaitFetch ->
    res = Responded true status ->
    settle_outcome env k res st
      (set_tasks (replace_nth k (with_phase AwaitJson t) (tasks st)) st, [])
| settle_left t out :
    nth_error (tasks st) k = Some t -> exits (phase t) res = true ->
    (out = [Toast (lit "Failed to process audio")] \/
     exists result, res = Parsed result /\ out = onResult env result) ->
    settle_outcome env k res st (finish k t out st).

(** Indices of the requests posted, in the order of posting. *)
Definition postedIndices (out : list Label) : list Z :=
  map chunkIndex (requests out).

(** Every index that can still be posted from [st] is at least [lo]. *)
Definition ahead (st : State) (lo : Z) : Prop :=
  match tasks st with
  | [] => audioContextRef st = true -> lo <= chunkIndexRef st
  | t :: _ =>
      (phase t = AwaitArrayBuffer -> lo <= task_chunkIndex t) /\
      (audioContextRef st = true ->
       task_chunkIndex t <= chunkIndexRef st /\ lo <= chunkIndexRef st + 1)
  end.

(** Number of suspended invocations whose request has been posted. *)
Definition openRequests (st : State) : nat :=
  List.length (filter requestOpen (tasks st)).

(** Everything a session keeps true. *)
Record kept (env : Env) (r0 : nat) (st : State) : Prop := {
  kept_session : session r0 st;
  kept_buffered : bufferSize st = buffered st;
  kept_overlap : overlapFull st;
  kept_tasks : Forall (taskWellFormed env) (tasks st)
}.

Definition anonymous_env : Env :=
  {| role := Creator; roomId := Some (lit "room-1"); userId := None;
     storage := {| Helpers.listenerLanguage := None;
                   Helpers.userDataItem := None |} |}.

End Session.

(** ** Counting the requests of the caption effect *)

Module CaptionTrace.

Import Captions.

Definition isFetchTranslate (e : Effect) : bool :=
  match e with FetchTranslate _ _ _ _ => true | _ => false end.

Definition translateRequests (out : list Effect) : nat :=
  List.length (filter isFetchTranslate out).

Definition ttsRequests (out : list Effect) : nat :=
  List.length (filter isFetchTTS out).

Definition isAwaitTranslate (e : nat * Continuation) : bool :=
  match snd e with AwaitTranslate _ _ => true | AwaitTTS => false end.

(** Translations that are still awaited. *)
Definition awaited (st : State) : nat :=
  List.length (filter isAwaitTranslate (pending st)).

(** At most one expiry timer is pending, the one the reference holds, and
    nothing is suspended. *)
Definition quiet (st : State) : Prop :=
  pending st = [] /\
  (timers st = [] \/
   exists t, timers st = [t] /\ captionTimeoutRef st = Some t).

(** The event is the arrival of a caption that the effect accepts. *)
Definition newCaption (ev : Event) : bool :=
  match ev with
  | DataMessages dataMessages _ =>
      match lastMsg_of dataMessages with
      | Some m => accepted m
      | None => false
      end
  | _ => false
  end.

End CaptionTrace.

(** ** What the page renders from its state (joinpage.tsx, lines 556-607) *)

Module Controls.

Import Captions.

Record Ui := {
  ui_role : Role;
  ui_isConnecting : bool;
  ui_isProcessing : bool;
  ui_isRecording : bool
}.

Definition is_creator (r : Role) : bool :=
  match r with Creator => true | _ => false end.

(** What [handleMicClick] does. *)
Inductive MicAction : Type :=
| ToastOnlyCreator
| ToastPleaseWait
| CallStopSpeech
| CallStartSpeech.

(** Lines 556-570. *)
Definition handleMicClick (u : Ui) : MicAction :=
  if negb (is_creator (ui_role u)) then ToastOnlyCreator
  else if ui_isConnecting u || ui_isProcessing u then ToastPleaseWait
  else if ui_isRecording u then CallStopSpeech
  else CallStartSpeech.

Record MicButton := {
  className : string;
  disabled : bool
}.

(** Lines 580-594. *)
Definition getMicButtonState (u : Ui) : MicButton :=
  if negb (is_creator (ui_role u)) then
    {| className := "w-9 h-9 opacity-40"; disabled := true |}
  else if ui_isConnecting u || ui_isProcessing u then
    {| className := "w-9 h-9 animate-pulse opacity-70"; disabled := true |}
  else if ui_isRecording u then
    {| className := "w-9 h-9 animate-pulse opacity-100"; disabled := false |}
  else
    {| className := "w-9 h-9 opacity-70 hover:opacity-100"; disabled := false |}.

(** What [handleLeaveClick] does before it navigates away (lines 572-578). *)
Definition leaveStopsSpeech (u : Ui) : bool := ui_isRecording u.

(** [messages.slice(-n)]. *)
Definition sliceLast {A : Type} (n : nat) (l : list A) : list A :=
  skipn (List.length l - n) l.

(** Lines 596-601: the texts [displayCaptions] renders. *)
Definition displayCaptions (messages : list DataMessage) : list (option jsstring) :=
  map text (sliceLast 5 messages).

(** Line 834: the condition under which the recent-messages block is
    rendered. *)
Definition showsRecentMessages (messages : list DataMessage) : bool :=
  Nat.ltb 1 (List.length messages).

End Controls.

(** ** Local storage as a key-value store, and the storage helpers *)

Module Storage.

Definition localStorage := list (jsstring * jsstring).

Fixpoint getItem (key : jsstring) (s : localStorage) : option jsstring :=
  match s with
  | (k, v) :: s' => if jsstring_eqb key k then Some v else getItem key s'
  | [] => None
  end.

Definition removeItem (key : jsstring) (s : localStorage) : localStorage :=
  filter (fun e => negb (jsstring_eqb key (fst e))) s.

Definition setItem (key value : jsstring) (s : localStorage) : localStorage :=
  (key, value) :: removeItem key s.

Definition clear (s : localStorage) : localStorage := [].

Definition localStorageTokenKey : jsstring := lit "token".
Definition localStorageUserKey : jsstring := lit "userData".
Definition listenerLanguageKey : jsstring := lit "listenerLanguage".

(** [saveLocalStorage(key, data)] with [isJson] false. *)
Definition saveLocalStorage (key data : jsstring) (s : localStorage)
    : localStorage :=
  setItem key data s.

(** [getItemLocalStorage(key)] with [isJson] false: a missing or empty item
    reads as [null]. *)
Definition getItemLocalStorage (key : jsstring) (s : localStorage)
    : option jsstring :=
  match getItem key s with
  | Some (c :: v) => Some (c :: v)
  | _ => None
  end.

Definition getToken (s : localStorage) : option jsstring :=
  getItemLocalStorage localStorageTokenKey s.

Definition isAuthenticated (s : localStorage) : bool :=
  match getToken s with Some _ => true | None => false end.

(** [saveUserLocal({token, user})]; [stringifyJson] is [JSON.stringify]. *)
Definition saveUserLocal (stringifyJson : Helpers.User -> jsstring)
    (token : jsstring) (user : Helpers.User) (s : localStorage)
    : localStorage :=
  setItem localStorageUserKey (stringifyJson user)
    (saveLocalStorage localStorageTokenKey token s).

Definition userLogout (s : localStorage) : localStorage :=
  removeItem localStorageUserKey (removeItem localStorageTokenKey s).

(** [handleLogout] of the settings page: [localStorage.clear()]. *)
Definition handleLogout (s : localStorage) : localStorage := clear s.

(** The items the page reads, with [parseJson] standing for [JSON.parse]
    on the stored profile. *)
Definition view (parseJson : jsstring -> Helpers.JsonUser) (s : localStorage)
    : Helpers.LocalStorage :=
  {| Helpers.listenerLanguage := getItem listenerLanguageKey s;
     Helpers.userDataItem :=
       option_map (fun d => (d, parseJson d)) (getItem localStorageUserKey s) |}.

(** Sample data. *)

Definition example_user : Helpers.User :=
  {| Helpers.language := Some (lit "es-ES");
     Helpers.id := Some (lit "7"); Helpers.userId := None |}.

Definition example_stringify (u : Helpers.User) : jsstring := lit "{...}".

Definition example_parse (d : jsstring) : Helpers.JsonUser :=
  Helpers.JsonObject example_user.

End Storage.

(** ** The language sent with a chunk, read at two moments *)

Module ChunkLanguage.

(** [userLanguage] is a constant of the render (line 122), computed from
    local storage as it is then; [getTargetLanguageCode] (lines 306-308)
    reads the override anew when the request is built. *)
Definition getTargetLanguageCode (atRender atRequest : Helpers.LocalStorage)
    : jsstring :=
  or_else (Helpers.listenerLanguage atRequest)
          (Helpers.getUserLanguage atRender).

(** The language of the profile stored when the component rendered. *)
Definition profileLanguage (atRender : Helpers.LocalStorage)
    : option jsstring :=
  match Helpers.getUserData atRender with
  | Helpers.Ok (Some u) => Helpers.language u
  | _ => None
  end.

End ChunkLanguage.

(** * Properties *)

(** ** WAV encoding *)

Section WavFacts.

Import WAVEncoder.

Lemma clamp_cases (s : number) :
  clamp s = NaN \/ exists q, clamp s = Fin q /\ (-1 <= q)%Q /\ (q <= 1)%Q.
Proof.
  destruct s as [ | | | q]; unfold clamp; simpl.
  - now left.
  - right. exists 1%Q. repeat split; discriminate.
  - right. exists (-1)%Q. repeat split; discriminate.
  - right. destruct (Qle_bool 1 q) eqn:Hhi; simpl.
    + exists 1%Q. repeat split; discriminate.
    + assert (Hlt : (q < 1)%Q).
      { apply Qnot_le_lt. intro H. apply Qle_bool_iff in H. congruence. }
      destruct (Qle_bool (-1) q) eqn:Hlo.
      * exists q. repeat split; [now apply Qle_bool_iff | now apply Qlt_le_weak].
      * exists (-1)%Q. repeat split; discriminate.
Qed.

Lemma quot_bound (n d k : Z) :
  0 < d -> 0 <= k -> - d <= n <= d -> - k <= Z.quot (n * k) d <= k.
Proof.
  intros Hd Hk Hn.
  destruct (Z_le_gt_dec 0 n) as [Hpos | Hneg].
  - rewrite Z.quot_div_nonneg by nia.
    split.
    + assert (0 <= n * k / d) by (apply Z.div_pos; nia). lia.
    + apply Z.div_le_upper_bound; nia.
  - replace (n * k) with (- ((- n) * k)) by ring.
    rewrite Z.quot_opp_l by lia.
    rewrite Z.quot_div_nonneg by nia.
    split.
    + assert (- n * k / d <= k) by (apply Z.div_le_upper_bound; nia). lia.
    + assert (0 <= - n * k / d) by (apply Z.div_pos; nia). lia.
Qed.

Lemma truncate_scaled (q : Q) :
  (-1 <= q)%Q -> (q <= 1)%Q ->
  -32767 <= truncate (q * (32767 # 1)) <= 32767.
Proof.
  intros Hlo Hhi. unfold truncate, Qle in *. simpl in *.
  rewrite Pos.mul_1_r.
  apply (quot_bound (Qnum q) (QDen q) 32767); lia.
Qed.

Lemma ToInt16_small (q : Q) :
  -32768 <= truncate q <= 32767 -> ToInt16 (Fin q) = truncate q.
Proof.
  intros H. unfold ToInt16.
  destruct (Z_le_gt_dec 0 (truncate q)) as [Hpos | Hneg].
  - rewrite Z.mod_small by lia.
    destruct (Z.ltb_spec (truncate q) 32768); lia.
  - replace (truncate q mod 65536) with (truncate q + 65536).
    + destruct (Z.ltb_spec (truncate q + 65536) 32768); lia.
    + rewrite <- (Z.mod_small (truncate q + 65536) 65536) by lia.
      replace (truncate q + 65536) with (truncate q + 1 * 65536) by ring.
      now rewrite Z_mod_plus_full.
Qed.

Lemma pcm16_bounds (s : number) : -32767 <= pcm16 s <= 32767.
Proof.
  unfold pcm16.
  destruct (clamp_cases s) as [E | (q & E & Hlo & Hhi)]; rewrite E; simpl times.
  - simpl. lia.
  - pose proof (truncate_scaled q Hlo Hhi) as Ht.
    rewrite ToInt16_small; lia.
Qed.

(** The blob is the 44-byte header followed by the two little-endian bytes
    of [pcm16] of every sample. *)
Lemma encodeWAV_layout (samples : list number) (sampleRate : Z) :
  encodeWAV samples sampleRate =
    header (Z.of_nat (List.length samples)) sampleRate ++
    flat_map (fun s => [(pcm16 s mod 65536) mod 256;
                        ((pcm16 s mod 65536) / 256) mod 256]) samples
  /\ List.length (header (Z.of_nat (List.length samples)) sampleRate) = 44%nat.
Proof. split; reflexivity. Qed.

Lemma encodeWAV_length (samples : list number) (sampleRate : Z) :
  List.length (encodeWAV samples sampleRate) = (44 + 2 * List.length samples)%nat.
Proof.
  unfold encodeWAV. rewrite length_app.
  replace (List.length (header _ sampleRate)) with 44%nat by reflexivity.
  f_equal. induction samples as [| s samples IH]; simpl; [reflexivity |].
  rewrite IH. lia.
Qed.

Example encodeWAV_two_samples :
  encodeWAV [Fin (-1); Fin (1 # 2)] 16000 =
    [82; 73; 70; 70; 40; 0; 0; 0; 87; 65; 86; 69; 102; 109; 116; 32;
     16; 0; 0; 0; 1; 0; 1; 0; 128; 62; 0; 0; 0; 125; 0; 0; 2; 0; 16; 0;
     100; 97; 116; 97; 4; 0; 0; 0; 1; 128; 255; 63].
Proof. reflexivity. Qed.

Example pcm16_not_finite :
  pcm16 NaN = 0 /\ pcm16 PosInf = 32767 /\ pcm16 NegInf = -32767.
Proof. repeat split. Qed.

Lemma sampleFor_shape (v : Z) :
  -32767 <= v <= 32767 ->
  exists k, Float32.sampleFor v = k # 16777216 /\
    ((0 <= v /\ 0 <= k <= 16777216 /\
      v * 16777216 <= k * 32767 < (v + 1) * 16777216) \/
     (v < 0 /\ -16777216 <= k <= 0 /\
      (- v) * 16777216 <= (- k) * 32767 < (- v + 1) * 16777216)).
Proof.
  intros Hv. unfold Float32.sampleFor.
  destruct (Z.leb_spec 0 v) as [Hpos | Hneg].
  - exists ((v * 16777216 + 32766) / 32767). split; [reflexivity |]. left.
    pose proof (Z.mul_div_le (v * 16777216 + 32766) 32767 ltac:(lia)).
    pose proof (Z.mul_succ_div_gt (v * 16777216 + 32766) 32767 ltac:(lia)).
    lia.
  - exists (- ((- v * 16777216 + 32766) / 32767)). split; [reflexivity |].
    right.
    pose proof (Z.mul_div_le (- v * 16777216 + 32766) 32767 ltac:(lia)).
    pose proof (Z.mul_succ_div_gt (- v * 16777216 + 32766) 32767 ltac:(lia)).
    lia.
Qed.

Lemma sampleFor_binary32 (v : Z) :
  -32767 <= v <= 32767 -> Float32.binary32 (Float32.sampleFor v).
Proof.
  intros Hv. destruct (sampleFor_shape v Hv) as (k & -> & Hk).
  assert (Hrange : -16777216 <= k <= 16777216) by lia.
  destruct (Z.eq_dec k 16777216) as [-> | Hhi].
  { exists 1, 0. repeat split; try lia; reflexivity. }
  destruct (Z.eq_dec k (-16777216)) as [-> | Hlo].
  { exists (-1), 0. repeat split; try lia; reflexivity. }
  exists k, (-24). split; [lia |]. split; [lia |].
  change ((2 # 1) ^ (-24))%Q with (1 # 16777216)%Q.
  unfold Qeq. simpl. lia.
Qed.

Lemma pcm16_reached (v : Z) :
  -32767 <= v <= 32767 -> pcm16 (Fin (Float32.sampleFor v)) = v.
Proof.
  intros Hv. destruct (sampleFor_shape v Hv) as (k & -> & Hk).
  unfold pcm16, clamp. simpl Math_min.
  destruct (Qle_bool 1 (k # 16777216)) eqn:Hhi.
  - apply Qle_bool_iff in Hhi. unfold Qle in Hhi. simpl in Hhi.
    assert (v = 32767) by lia. subst v. reflexivity.
  - simpl Math_max.
    destruct (Qle_bool (-1) (k # 16777216)) eqn:Hlo.
    + assert (Hk' : k < 16777216).
      { destruct (Z_lt_ge_dec k 16777216) as [? | Hge]; [assumption |].
        assert (Hle : (1 <= k # 16777216)%Q) by (unfold Qle; simpl; lia).
        apply Qle_bool_iff in Hle. congruence. }
      simpl times.
      assert (Ht : truncate ((k # 16777216) * (32767 # 1)) = v).
      { unfold truncate. simpl Qnum. simpl Qden.
        destruct Hk as [(Hpos & Hkr & Hprod) | (Hneg & Hkr & Hprod)].
        - rewrite Z.quot_div_nonneg by lia.
          symmetry.
          apply (Z.div_unique (k * 32767) 16777216 v
                   (k * 32767 - v * 16777216)); lia.
        - replace (k * 32767) with (- (- k * 32767)) by ring.
          rewrite Z.quot_opp_l by lia.
          rewrite Z.quot_div_nonneg by lia.
          assert (E : - k * 32767 / 16777216 = - v).
          { symmetry.
            apply (Z.div_unique (- k * 32767) 16777216 (- v)
                     (- k * 32767 - (- v) * 16777216)); lia. }
          rewrite E. lia. }
      rewrite ToInt16_small; rewrite Ht; [reflexivity | lia].
    + exfalso.
      assert (Hle : (-1 <= k # 16777216)%Q) by (unfold Qle; simpl; lia).
      apply Qle_bool_iff in Hle. congruence.
Qed.

(** C8, as amended.  Every sample is clamped to [-1, 1] and multiplied by
    32767 with truncation toward zero: the stored values lie in
    [-32767, 32767] and every value of that interval is stored for some
    sample a Float32Array can hold; -1 is stored as -32767 and +1 as 32767,
    so -32768 is never stored. *)
Theorem C8_pcm16_symmetric_range :
  (forall s, -32767 <= pcm16 s <= 32767) /\
  pcm16 (Fin (-1)) = -32767 /\
  pcm16 (Fin 1) = 32767 /\
  (forall v, -32767 <= v <= 32767 ->
     Float32.binary32 (Float32.sampleFor v) /\
     pcm16 (Fin (Float32.sampleFor v)) = v).
Proof.
  split; [exact pcm16_bounds |].
  split; [reflexivity |].
  split; [reflexivity |].
  intros v Hv. split; [now apply sampleFor_binary32 | now apply pcm16_reached].
Qed.

Lemma C8_pcm16_symmetric_range_witness :
  -32767 <= 12345 <= 32767 /\
  Float32.sampleFor 12345 = (6320833 # 16777216) /\
  Float32.binary32 (6320833 # 16777216) /\
  pcm16 (Fin (6320833 # 16777216)) = 12345.
Proof.
  split; [lia |]. split; [reflexivity |].
  apply (proj2 (proj2 (proj2 C8_pcm16_symmetric_range)) 12345). lia.
Defined.

(** C8 as stated fails: a sample of -1 is not stored as the minimum
    16-bit value. *)
Lemma C8_minus_one_is_not_minimum :
  pcm16 (Fin (-1)) = -32767 /\ pcm16 (Fin (-1)) <> -32768.
Proof. split; [reflexivity | discriminate]. Qed.

End WavFacts.

(** ** Caption orchestration *)

Section CaptionFacts.

Import Captions.

Lemma trimStart_blank (t : jsstring) :
  forallb is_whitespace t = true -> trimStart t = [].
Proof.
  induction t as [| c t IH]; simpl; [reflexivity |].
  intros H. apply andb_true_iff in H as [Hc Ht].
  rewrite Hc. now apply IH.
Qed.

Lemma trim_blank (t : jsstring) :
  forallb is_whitespace t = true -> trim t = [].
Proof.
  intros H. unfold trim. now rewrite (trimStart_blank t H).
Qed.

Lemma blank_not_accepted (m : DataMessage) : blank m -> accepted m = false.
Proof.
  unfold accepted.
  intros [H | [H | (t & H & Hws)]]; rewrite H; simpl.
  - now rewrite andb_false_r.
  - now rewrite andb_false_r.
  - rewrite (trim_blank t Hws). simpl. now rewrite andb_false_r.
Qed.

Lemma accepted_text (m : DataMessage) :
  accepted m = true -> exists c t, text m = Some (c :: t).
Proof.
  unfold accepted. intros H.
  apply andb_true_iff in H as [H _]. apply andb_true_iff in H as [_ H].
  destruct (text m) as [[| c t] |]; try discriminate. now exists c, t.
Qed.

Lemma wf_initial : wf initial.
Proof. split; simpl; auto; discriminate. Qed.

Lemma Forall_filter {A : Type} (P : A -> Prop) (f : A -> bool) (l : list A) :
  Forall P l -> Forall P (filter f l).
Proof.
  induction 1 as [| x l Hx Hl IH]; simpl; [constructor |].
  destruct (f x); auto.
Qed.

Lemma wf_setCaption v st : wf st -> wf (setCaption v st).
Proof. intros [? ? ? ?]; split; simpl; auto. Qed.

Lemma wf_setMessages_nil st : wf st -> wf (setMessages [] st).
Proof. intros [? ? ? ?]; split; simpl; auto. Qed.

Lemma wf_setMessages_one m st : wf st -> wf (setMessages [m] st).
Proof. intros [? ? ? ?]; split; simpl; auto. Qed.

Lemma wf_clearCaptionTimeout st : wf st -> wf (clearCaptionTimeout st).
Proof.
  intros [Hp Ht Hr Hm]. unfold clearCaptionTimeout.
  destruct (captionTimeoutRef st) eqn:E; split; simpl; auto.
  - now apply Forall_filter.
  - intros t H. apply Hr. congruence.
Qed.

Lemma wf_scheduleClear st : wf st -> wf (scheduleClear st).
Proof.
  intros [Hp Ht Hr Hm]. split; simpl; auto.
  - eapply Forall_impl; [| exact Hp]. simpl. intros; lia.
  - apply Forall_app. split.
    + eapply Forall_impl; [| exact Ht]. simpl. intros; lia.
    + repeat constructor.
  - intros t [= <-]. lia.
Qed.

Lemma wf_suspend k st : wf st -> wf (suspend k st).
Proof.
  intros [Hp Ht Hr Hm]. split; simpl; auto.
  - apply Forall_app. split.
    + eapply Forall_impl; [| exact Hp]. simpl. intros; lia.
    + repeat constructor.
  - eapply Forall_impl; [| exact Ht]. simpl. intros; lia.
  - intros t E. specialize (Hr t E). lia.
Qed.

Lemma wf_resume i st : wf st -> wf (resume i st).
Proof.
  intros [Hp Ht Hr Hm]. split; simpl; auto. now apply Forall_filter.
Qed.

Create HintDb captions.

#[local] Hint Resolve wf_setCaption wf_setMessages_nil wf_setMessages_one
  wf_clearCaptionTimeout wf_scheduleClear wf_suspend wf_resume : captions.

Lemma wf_step role st ev : wf st -> wf (fst (step role st ev)).
Proof.
  intros H. destruct ev as [msgs ll | i o | i o | t]; simpl.
  - unfold captionEffect. destruct (lastMsg_of msgs) as [m |]; [| exact H].
    destruct (accepted m); [| exact H].
    destruct (is_listener role); simpl; auto 10 with captions.
  - destruct (lookup i (pending st)) as [[m l |] |]; try exact H.
    destruct o; simpl; unfold onTranslated, onTranslateFailed; simpl;
      auto 10 with captions.
  - destruct (lookup i (pending st)) as [[m l |] |]; try exact H.
    destruct o as [| [[| c s] |]]; simpl; auto with captions.
  - destruct (existsb (Nat.eqb t) (timers st)); [| exact H]. simpl.
    destruct H as [Hp Ht Hr Hm]. split; simpl; auto. now apply Forall_filter.
Qed.

Lemma wf_run role evs : forall st, wf st -> wf (fst (run role st evs)).
Proof.
  induction evs as [| ev evs IH]; intros st H; simpl; [exact H |].
  pose proof (wf_step role st ev H) as H1.
  destruct (step role st ev) as [st1 out1]. simpl in H1.
  specialize (IH st1 H1).
  destruct (run role st1 evs) as [st2 out2]. exact IH.
Qed.

Lemma lookup_fresh i l n :
  Forall (fun e => (fst e < n)%nat) l -> (n <= i)%nat -> lookup i l = None.
Proof.
  induction 1 as [| [j k] l Hj Hl IH]; simpl; intros Hi; [reflexivity |].
  simpl in Hj. destruct (Nat.eqb_spec i j); [lia | auto].
Qed.

Lemma lookup_app_found i l l' k :
  lookup i l = Some k -> lookup i (l ++ l') = Some k.
Proof.
  induction l as [| [j k'] l IH]; simpl; [discriminate |].
  destruct (Nat.eqb i j); auto.
Qed.

Lemma lookup_app_fresh i l k :
  lookup i l = None -> lookup i (l ++ [(i, k)]) = Some k.
Proof.
  induction l as [| [j k'] l IH]; simpl.
  - now rewrite Nat.eqb_refl.
  - destruct (Nat.eqb i j); [discriminate | auto].
Qed.

Lemma lookup_filter_other i j l :
  i <> j ->
  lookup i (filter (fun e => negb (Nat.eqb (fst e) j)) l) = lookup i l.
Proof.
  intros Hij. induction l as [| [a k] l IH]; simpl; [reflexivity |].
  destruct (Nat.eqb_spec a j) as [-> | Haj]; simpl.
  - destruct (Nat.eqb_spec i j); [contradiction | exact IH].
  - now rewrite IH.
Qed.

Lemma step_keeps_translation role st ev i m l :
  lookup i (pending st) = Some (AwaitTranslate m l) ->
  ~ settles i ev ->
  lookup i (pending (fst (step role st ev))) = Some (AwaitTranslate m l).
Proof.
  intros Hi Hev. destruct ev as [msgs ll | j o | j o | t]; simpl.
  - unfold captionEffect. destruct (lastMsg_of msgs) as [m' |]; [| exact Hi].
    destruct (accepted m'); [| exact Hi].
    unfold clearCaptionTimeout. simpl.
    destruct (captionTimeoutRef st); destruct (is_listener role); simpl;
      auto using lookup_app_found.
  - destruct (Nat.eq_dec i j) as [-> | Hij].
    { exfalso. apply Hev. now exists o. }
    destruct (lookup j (pending st)) as [[m' l' |] |]; try exact Hi.
    destruct o; simpl; [now rewrite lookup_filter_other |].
    apply lookup_app_found. now rewrite lookup_filter_other.
  - destruct (lookup j (pending st)) as [[m' l' |] |] eqn:Hj; try exact Hi.
    assert (Hij : i <> j) by (intros ->; congruence).
    destruct o as [| [[| c s] |]]; simpl; now rewrite lookup_filter_other.
  - destruct (existsb (Nat.eqb t) (timers st)); exact Hi.
Qed.

Lemma run_keeps_translation role evs i m l :
  forall st,
    lookup i (pending st) = Some (AwaitTranslate m l) ->
    Forall (fun ev => ~ settles i ev) evs ->
    lookup i (pending (fst (run role st evs))) = Some (AwaitTranslate m l).
Proof.
  induction evs as [| ev evs IH]; intros st Hi Hevs; simpl; [exact Hi |].
  inversion Hevs as [| ? ? Hev Hrest]; subst.
  pose proof (step_keeps_translation role st ev i m l Hi Hev) as H1.
  destruct (step role st ev) as [st1 out1]. simpl in H1.
  specialize (IH st1 H1 Hrest).
  destruct (run role st1 evs) as [st2 out2]. exact IH.
Qed.

(** Delivering an accepted caption to a listener posts one translation
    request and suspends its continuation under a fresh identifier. *)
Lemma listener_delivery st dataMessages ll m :
  wf st ->
  lastMsg_of dataMessages = Some m -> accepted m = true ->
  let lang := myLanguage ll in
  let r := step Listener st (DataMessages dataMessages ll) in
  snd r = [FetchTranslate (nextId st) (or_else (text m) []) lang (lit "auto")]
  /\ lookup (nextId st) (pending (fst r)) = Some (AwaitTranslate m lang).
Proof.
  intros Hwf Hm Hacc. simpl. unfold captionEffect. rewrite Hm, Hacc. simpl.
  assert (Hfresh : lookup (nextId st) (pending st) = None).
  { eapply lookup_fresh; [apply (wf_pending st Hwf) | lia]. }
  unfold clearCaptionTimeout. simpl.
  destruct (captionTimeoutRef st); simpl; split; auto using lookup_app_fresh.
Qed.

(** A listener whose language is "es-ES" receives "hello": the translation
    is requested for ("hello", "es-ES", "auto"); once "hola" comes back it
    is displayed and speech is requested for ("hola", "es-ES"). *)
Example listener_translates_and_speaks :
  run Listener initial
    [DataMessages [example_caption (Some (lit "hello"))] (Some (lit "es-ES"));
     TranslateSettled 1 (TranslateData (Some (lit "hola")))]
  = ({| captionText := lit "hola";
        messages := [withText (example_caption (Some (lit "hello")))
                       (lit "hola") (lit "es-ES")];
        captionTimeoutRef := Some 2%nat; timers := [2%nat];
        pending := [(3%nat, AwaitTTS)]; nextId := 4 |},
     [FetchTranslate 1 (lit "hello") (lit "es-ES") (lit "auto");
      FetchTTS 3 (lit "hola") (lit "es-ES")]).
Proof. reflexivity. Qed.

(** The creator shows the source text at once and requests nothing; the
    timer then clears the caption. *)
Example creator_shows_source :
  run Creator initial
    [DataMessages [example_caption (Some (lit "hello"))] None; TimerFired 1]
  = ({| captionText := [];
        messages := [example_caption (Some (lit "hello"))];
        captionTimeoutRef := Some 1%nat; timers := [];
        pending := []; nextId := 2 |}, []).
Proof. reflexivity. Qed.

(** C9.  A data message whose text is absent, empty or made of whitespace
    only is ignored: the state (displayed caption, history, timer reference
    and pending timers, suspended requests) is returned as it was and no
    request is started. *)
Theorem C9_blank_caption_ignored role st dataMessages ll m :
  lastMsg_of dataMessages = Some m ->
  blank m ->
  step role st (DataMessages dataMessages ll) = (st, []).
Proof.
  intros Hm Hb. simpl. unfold captionEffect.
  now rewrite Hm, (blank_not_accepted m Hb).
Qed.

Lemma C9_blank_caption_ignored_witness :
  step Listener shown
    (DataMessages [example_caption (Some (lit "hi"));
                   example_caption (Some [0x20; 0x09; 0x3000]%N)] None)
  = (shown, []).
Proof.
  apply (C9_blank_caption_ignored Listener shown _ None
           (example_caption (Some [0x20; 0x09; 0x3000]%N))).
  - reflexivity.
  - right. right. eexists. split; reflexivity.
Defined.

(** C5.  A listener processes a caption event whose text is [t]; whatever
    happens next, when the translation request of that event fails the
    caption is [t], which is not empty: the caption state is [t], the
    history that the page renders holds the event alone, with its source
    text, so [displayCaptions] shows exactly [t], and the expiry timer of
    that caption is pending. *)
Theorem C5_translation_failure_shows_source evs0 dataMessages ll m t evs :
  let st0 := fst (run Listener initial evs0) in
  let st1 := fst (step Listener st0 (DataMessages dataMessages ll)) in
  let st2 := fst (run Listener st1 evs) in
  let st3 := fst (step Listener st2 (TranslateSettled (nextId st0) TranslateRejected)) in
  lastMsg_of dataMessages = Some m ->
  accepted m = true ->
  text m = Some t ->
  Forall (fun ev => ~ settles (nextId st0) ev) evs ->
  t <> [] /\
  captionText st3 = t /\
  messages st3 = [withLanguage m (myLanguage ll)] /\
  Controls.displayCaptions (messages st3) = [Some t] /\
  captionTimeoutRef st3 = Some (nextId st2) /\
  In (nextId st2) (timers st3).
Proof.
  intros st0 st1 st2 st3 Hm Hacc Ht Hevs.
  assert (Hwf : wf st0) by (apply wf_run, wf_initial).
  destruct (listener_delivery st0 dataMessages ll m Hwf Hm Hacc) as [_ Hp].
  pose proof (run_keeps_translation Listener evs _ _ _ st1 Hp Hevs) as Hp2.
  fold st2 in Hp2. clearbody st2. subst st3. simpl. rewrite Hp2. simpl.
  destruct (accepted_text m Hacc) as (c & s & E).
  rewrite Ht in E. injection E as ->. rewrite Ht. simpl.
  split; [discriminate |]. split; [reflexivity |]. split; [reflexivity |].
  split; [unfold Controls.displayCaptions; simpl; now rewrite Ht |].
  split; [reflexivity |].
  rewrite in_app_iff. right. now left.
Qed.

Lemma C5_translation_failure_shows_source_witness :
  let m := example_caption (Some (lit "hello")) in
  let st0 := fst (run Listener initial []) in
  let st1 := fst (step Listener st0 (DataMessages [m] (Some (lit "es-ES")))) in
  let st2 := fst (run Listener st1 [TimerFired 7]) in
  let st3 := fst (step Listener st2 (TranslateSettled (nextId st0) TranslateRejected)) in
  lit "hello" <> [] /\
  captionText st3 = lit "hello" /\
  messages st3 = [withLanguage m (lit "es-ES")] /\
  Controls.displayCaptions (messages st3) = [Some (lit "hello")] /\
  captionTimeoutRef st3 = Some (nextId st2) /\
  In (nextId st2) (timers st3).
Proof.
  assert (Hevs : Forall (fun ev => ~ settles 1 ev) [TimerFired 7]).
  { repeat constructor. intros [o H]. discriminate. }
  exact (C5_translation_failure_shows_source []
           [example_caption (Some (lit "hello"))] (Some (lit "es-ES"))
           (example_caption (Some (lit "hello"))) (lit "hello") [TimerFired 7]
           eq_refl eq_refl eq_refl Hevs).
Defined.

(** C10.  The failure of a translation starts no request at all, in
    particular no speech synthesis; and an event that does start a
    speech-synthesis request is the arrival of the decoded response of a
    suspended translation. *)
Theorem C10_tts_only_after_translation role st :
  (forall i, snd (step role st (TranslateSettled i TranslateRejected)) = []) /\
  (forall ev, existsb isFetchTTS (snd (step role st ev)) = true ->
     exists i translated m lang,
       ev = TranslateSettled i (TranslateData translated) /\
       lookup i (pending st) = Some (AwaitTranslate m lang)).
Proof.
  split.
  - intros i. simpl. now destruct (lookup i (pending st)) as [[m l |] |].
  - intros ev. destruct ev as [msgs ll | i o | i o | t]; simpl.
    + unfold captionEffect. destruct (lastMsg_of msgs) as [m |]; [| discriminate].
      destruct (accepted m); [| discriminate].
      destruct (is_listener role); discriminate.
    + destruct (lookup i (pending st)) as [[m l |] |] eqn:E; try discriminate.
      destruct o as [| translated]; [discriminate |].
      intros _. now exists i, translated, m, l.
    + destruct (lookup i (pending st)) as [[m l |] |]; try discriminate.
      destruct o as [| [[| c s] |]]; discriminate.
    + destruct (existsb (Nat.eqb t) (timers st)); discriminate.
Qed.

Lemma C10_tts_only_after_translation_witness :
  existsb isFetchTTS
    (snd (step Listener translating
            (TranslateSettled 1 (TranslateData (Some (lit "hola")))))) = true /\
  exists i translated m lang,
    TranslateSettled 1 (TranslateData (Some (lit "hola")))
      = TranslateSettled i (TranslateData translated) /\
    lookup i (pending translating) = Some (AwaitTranslate m lang).
Proof.
  split; [reflexivity |].
  apply (proj2 (C10_tts_only_after_translation Listener translating)).
  reflexivity.
Defined.

(** C4, as amended.  For a caption event handled by a listener, the target
    language of the translation request and the language of the
    speech-synthesis request are both the [listenerLanguage] item read when
    the event arrived if it is a non-empty string, and ["en"] otherwise. *)
Theorem C4_target_is_override_or_en evs0 dataMessages ll m evs translated :
  let st0 := fst (run Listener initial evs0) in
  let r1 := step Listener st0 (DataMessages dataMessages ll) in
  let st2 := fst (run Listener (fst r1) evs) in
  let r3 := step Listener st2
              (TranslateSettled (nextId st0) (TranslateData translated)) in
  let target := or_else ll (lit "en") in
  lastMsg_of dataMessages = Some m ->
  accepted m = true ->
  Forall (fun ev => ~ settles (nextId st0) ev) evs ->
  snd r1 = [FetchTranslate (nextId st0) (or_else (text m) []) target (lit "auto")]
  /\ exists i shownText, snd r3 = [FetchTTS i shownText target].
Proof.
  intros st0 r1 st2 r3 target Hm Hacc Hevs.
  assert (Hwf : wf st0) by (apply wf_run, wf_initial).
  destruct (listener_delivery st0 dataMessages ll m Hwf Hm Hacc) as [Hout Hp].
  split; [exact Hout |].
  pose proof (run_keeps_translation Listener evs _ _ _ (fst r1) Hp Hevs) as Hp2.
  fold st2 in Hp2. clearbody st2. subst r3. simpl. rewrite Hp2. simpl.
  eexists _, _. reflexivity.
Qed.

Lemma C4_target_is_override_or_en_witness :
  let m := example_caption (Some (lit "hello")) in
  let st0 := fst (run Listener initial []) in
  let r1 := step Listener st0 (DataMessages [m] None) in
  let st2 := fst (run Listener (fst r1) []) in
  let r3 := step Listener st2
              (TranslateSettled (nextId st0) (TranslateData (Some (lit "hola")))) in
  snd r1 = [FetchTranslate (nextId st0) (lit "hello") (lit "en") (lit "auto")]
  /\ exists i shownText, snd r3 = [FetchTTS i shownText (lit "en")].
Proof.
  apply (C4_target_is_override_or_en [] _ None
           (example_caption (Some (lit "hello"))) [] (Some (lit "hola"))).
  - reflexivity.
  - reflexivity.
  - constructor.
Defined.

(** C4 as stated fails: with no override and a profile preference of
    ["es-ES"], the stated precedence gives ["es-ES"], while the listener's
    translation and speech-synthesis requests both carry ["en"]. *)
Lemma C4_profile_preference_not_used :
  let m := example_caption (Some (lit "hello")) in
  let ll := Helpers.listenerLanguage spanish_profile in
  let r1 := step Listener initial (DataMessages [m] ll) in
  let r2 := step Listener (fst r1)
              (TranslateSettled 1 (TranslateData (Some (lit "hello")))) in
  specified_target spanish_profile = lit "es-ES" /\
  snd r1 = [FetchTranslate 1 (lit "hello") (lit "en") (lit "auto")] /\
  snd r2 = [FetchTTS 3 (lit "hello") (lit "en")] /\
  lit "en" <> specified_target spanish_profile.
Proof. repeat split; discriminate. Qed.

(** When a caption event is processed, the timer held in
    [captionTimeoutRef] is cancelled and the caption and the history are
    cleared; a listener is left with an empty caption until a translation
    settles, any other role shows the new text at once.  In every reachable
    state the history holds at most one message. *)
Lemma new_event_clears_display role evs0 dataMessages ll m t :
  let st0 := fst (run role initial evs0) in
  let st1 := fst (step role st0 (DataMessages dataMessages ll)) in
  lastMsg_of dataMessages = Some m ->
  accepted m = true ->
  text m = Some t ->
  match captionTimeoutRef st0 with
  | Some old => ~ In old (timers st1)
  | None => True
  end /\
  (if is_listener role
   then captionText st1 = [] /\ messages st1 = []
   else captionText st1 = t /\ messages st1 = [m]) /\
  (List.length (messages st0) <= 1)%nat /\
  (List.length (messages st1) <= 1)%nat.
Proof.
  intros st0 st1 Hm Hacc Ht.
  assert (Hwf : wf st0) by (apply wf_run, wf_initial).
  assert (Hwf1 : wf st1) by (apply wf_step, Hwf).
  destruct (accepted_text m Hacc) as (c & s & E).
  rewrite Ht in E. injection E as ->.
  assert (Hstep : st1 =
            if is_listener role
            then suspend (AwaitTranslate m (myLanguage ll))
                   (clearCaptionTimeout (setMessages [] (setCaption [] st0)))
            else scheduleClear (setMessages [m] (setCaption (c :: s)
                   (clearCaptionTimeout (setMessages [] (setCaption [] st0)))))).
  { subst st1. simpl. unfold captionEffect. rewrite Hm, Hacc, Ht. simpl.
    now destruct (is_listener role). }
  clearbody st1 st0.
  split; [| split; [| split]]; try (apply wf_messages; assumption).
  - destruct (captionTimeoutRef st0) as [old |] eqn:Hold; [| exact I].
    pose proof (wf_ref st0 Hwf old Hold) as Hlt.
    subst st1. unfold clearCaptionTimeout. simpl. rewrite Hold.
    destruct (is_listener role); simpl.
    + rewrite filter_In. intros [_ H]. now rewrite Nat.eqb_refl in H.
    + rewrite in_app_iff, filter_In. simpl.
      intros [[_ H] | [H | []]]; [now rewrite Nat.eqb_refl in H | lia].
  - subst st1. unfold clearCaptionTimeout.
    destruct (is_listener role); simpl;
      now destruct (captionTimeoutRef st0).
Qed.

(** C6, evaluated on the code.  A listener receives event "one" and then
    event "two".  The arrival of "two" clears the caption and the history;
    the translation of "two" is displayed first; the translation of the
    older event "one", arriving later, replaces it: the page then shows
    "uno", the text of the older event, and not the newer caption. *)
Theorem C6_older_translation_overwrites_newer :
  let m1 := example_caption (Some (lit "one")) in
  let m2 := example_caption (Some (lit "two")) in
  let arrived := fst (run Listener initial
                        [DataMessages [m1] None;
                         DataMessages [m1; m2] None]) in
  let st := fst (step Listener arrived
                   (TranslateSettled 2 (TranslateData (Some (lit "dos"))))) in
  let st' := fst (step Listener st
                    (TranslateSettled 1 (TranslateData (Some (lit "uno"))))) in
  (captionText arrived = [] /\ messages arrived = []) /\
  (captionText st = lit "dos" /\
   Controls.displayCaptions (messages st) = [Some (lit "dos")]) /\
  (captionText st' = lit "uno" /\
   Controls.displayCaptions (messages st') = [Some (lit "uno")]).
Proof. repeat split. Qed.

End CaptionFacts.

(** ** Capture and dispatch *)

Section DispatchFacts.

Import Captions Dispatch.

Variable env : Env.
Variable r0 : nat.

Lemma session_start : session r0 (startSpeech r0).
Proof. now apply session_idle. Qed.

Lemma session_afterChunk st : session r0 st -> session r0 (afterChunk st).
Proof.
  intros [? ? ? ? | t ? ? ? ? ? ?];
    [apply session_idle | apply (session_busy _ _ t)]; assumption.
Qed.

Lemma session_processAudioChunk blob index total st :
  session r0 st ->
  let r := processAudioChunk env r0 FromWorklet blob index total st in
  session r0 (fst (fst r)) /\
  (tasks st <> [] -> r = (st, [Invoked index total], Completed)).
Proof.
  intros H. unfold processAudioChunk, busy.
  destruct H as [Ha Hr Ht Hf | t Ha Hr Ht Hc Hw Hf]; rewrite Hf; simpl.
  - assert (Hmissing :
      session r0 (release r0 (acquire r0 st))).
    { apply session_idle; simpl; auto.
      now rewrite Nat.eqb_refl, Hf. }
    split; [| congruence].
    destruct (userId env) as [[| u us] |]; simpl; try exact Hmissing.
    destruct (roomId env) as [[| r rs] |]; simpl; try exact Hmissing.
    eapply session_busy; simpl; rewrite ?Ht, ?Hf; reflexivity || assumption.
  - rewrite Nat.eqb_refl. simpl. split; [| reflexivity].
    now apply (session_busy _ _ t).
Qed.

Lemma session_onmessage inputData st :
  session r0 st -> session r0 (fst (onmessage env inputData st)).
Proof.
  intros H. unfold onmessage.
  set (st1 := set_buffer _ _ st).
  assert (H1 : session r0 st1).
  { destruct H as [? ? ? ? | t ? ? ? ? ? ?];
      [apply session_idle | apply (session_busy _ _ t)]; assumption. }
  clearbody st1.
  destruct (targetBufferSize <=? bufferSize st1); [| exact H1].
  set (st2 := set_overlapBuffer _ st1).
  assert (H2 : session r0 st2).
  { destruct H1 as [? ? ? ? | t ? ? ? ? ? ?];
      [apply session_idle | apply (session_busy _ _ t)]; assumption. }
  clearbody st2.
  destruct (audioContextRef st2); simpl; [| exact H2].
  assert (Hr : captureRender st2 = r0) by (destruct H2; assumption).
  rewrite Hr.
  destruct (session_processAudioChunk
              (WAVEncoder.processAudioBuffer
                 match overlapBuffer st1 with
                 | Some overlap => overlap ++ List.concat (audioBuffer st1)
                 | None => List.concat (audioBuffer st1)
                 end) (chunkIndexRef st2) (-1) st2 H2) as [H3 _].
  destruct (processAudioChunk _ _ _ _ _ _ st2) as [[st3 out] [|]]; simpl in *.
  - now apply session_afterChunk.
  - exact H3.
Qed.

Lemma session_finish t out st :
  session r0 st -> tasks st = [t] ->
  let st' := fst (finish 0 t out st) in
  session r0 st' /\ tasks st' = [] /\ isProcessingAudio st' = [].
Proof.
  intros H Ht.
  destruct H as [Ha Hr Ht' Hf | t' Ha Hr Ht' Hc Hw Hf]; [congruence |].
  assert (t' = t) by congruence. subst t'.
  unfold finish, release. simpl. rewrite Hw, Ht, Hf, Hc. simpl.
  rewrite Nat.eqb_refl. simpl.
  repeat split. now apply session_idle.
Qed.

Lemma session_settle k res st :
  session r0 st -> session r0 (fst (settle env k res st)).
Proof.
  intros H. unfold settle.
  destruct (nth_error (tasks st) k) as [t |] eqn:Hk; [| exact H].
  assert (Ht : tasks st = [t] /\ k = 0%nat).
  { destruct H as [? ? Ht ? | t' ? ? Ht ? ? ?]; rewrite Ht in Hk.
    - now destruct k.
    - destruct k as [| [| k]]; simpl in Hk; try discriminate.
      injection Hk as ->. auto. }
  destruct Ht as [Ht ->].
  assert (Hphase : forall p,
             session r0 (set_tasks (replace_nth 0 (with_phase p t) (tasks st)) st)).
  { intros p. destruct H as [? ? Ht' ? | t' ? ? Ht' ? ? ?]; [congruence |].
    assert (t' = t) by congruence. subst t'.
    apply (session_busy _ _ (with_phase p t)); simpl; auto. now rewrite Ht. }
  destruct (phase t), res as [| | [|] status | result]; simpl;
    try exact H; try apply Hphase;
    try (unfold failed; apply (session_finish t _ st H Ht)).
Qed.

Lemma session_stopSpeech r st :
  session r0 st ->
  session r0 (fst (stopSpeech env r st)) /\
  snd (stopSpeech env r st) = [Toast (lit "Recording stopped")].
Proof.
  intros H. unfold stopSpeech. simpl.
  assert (Ha : audioChunksRef st = []) by (destruct H; assumption).
  rewrite Ha. simpl. split; [| reflexivity].
  destruct H as [? ? ? ? | t ? ? ? ? ? ?];
    [apply session_idle | apply (session_busy _ _ t)]; assumption.
Qed.

Lemma session_step st ev : session r0 st -> session r0 (fst (step env st ev)).
Proof.
  intros H. destruct ev as [inputData | k res | r]; simpl.
  - now apply session_onmessage.
  - now apply session_settle.
  - now apply session_stopSpeech.
Qed.

Lemma session_run evs :
  forall st, session r0 st -> session r0 (fst (run env st evs)).
Proof.
  induction evs as [| ev evs IH]; intros st H; simpl; [exact H |].
  pose proof (session_step st ev H) as H1.
  destruct (step env st ev) as [st1 out1]. simpl in H1.
  specialize (IH st1 H1).
  destruct (run env st1 evs) as [st2 out2]. exact IH.
Qed.

Lemma session_reachable evs : session r0 (fst (run env (startSpeech r0) evs)).
Proof. apply session_run, session_start. Qed.

End DispatchFacts.

Section DispatchClaims.

Import Captions Dispatch.

Lemma session_tasks_bound r0 st :
  session r0 st -> (List.length (tasks st) <= 1)%nat.
Proof.
  intros [? ? Ht ? | t ? ? Ht ? ? ?]; rewrite Ht; simpl; lia.
Qed.

Lemma filter_length_le {A : Type} (f : A -> bool) (l : list A) :
  (List.length (filter f l) <= List.length l)%nat.
Proof.
  induction l as [| x l IH]; simpl; [lia |].
  destruct (f x); simpl; lia.
Qed.

(** [stopSpeech] never calls [processAudioChunk] during a session: its
    only action is the closing toast. *)
Lemma stop_never_submits env r0 evs r :
  snd (step env (fst (run env (startSpeech r0) evs)) (Stop r))
    = [Toast (lit "Recording stopped")].
Proof.
  simpl. apply (session_stopSpeech env r0). apply session_reachable.
Qed.

(** The first window of a creator: index 0 with the open marker; the
    answer "hello" with audio is announced as a transcription and nothing
    is played. *)
Example creator_first_window :
  let r := run example_env (startSpeech 0)
             [Frame (silence 32000);
              Settle 0 ArrayBufferReady;
              Settle 0 (Responded true 200);
              Settle 0 (Parsed hello)] in
  map (fun q => (chunkIndex q, totalChunks q, Z.of_nat (List.length (audio q))))
      (requests (snd r)) = [(0, -1, 64044)] /\
  filter (fun l => match l with Fetch _ => false | _ => true end) (snd r)
    = [Invoked 0 (-1); Transcription (lit "hello") (lit "en-US")] /\
  chunkIndexRef (fst r) = 1 /\ bufferSize (fst r) = 0 /\
  option_map (fun o => Z.of_nat (List.length o)) (overlapBuffer (fst r))
    = Some 8000.
Proof. vm_compute. repeat split. Qed.

(** C1.  In every state a recording session can reach, at most one
    invocation of [processAudioChunk] is suspended, hence at most one
    transcription request is open.  While one is suspended, a further
    invocation by the message handler returns at once and leaves the state
    as it was: no task is recorded for the chunk and no request can be sent
    for it; the handler's step keeps the set of suspended invocations and
    posts nothing. *)
Theorem C1_single_submission_in_flight env r0 evs blob index total inputData :
  let st := fst (run env (startSpeech r0) evs) in
  (List.length (tasks st) <= 1)%nat /\
  (List.length (filter requestOpen (tasks st)) <= 1)%nat /\
  (tasks st <> [] ->
   processAudioChunk env (captureRender st) FromWorklet blob index total st
     = (st, [Invoked index total], Completed) /\
   tasks (fst (step env st (Frame inputData))) = tasks st /\
   requests (snd (step env st (Frame inputData))) = []).
Proof.
  intros st.
  assert (H : session r0 st) by apply session_reachable.
  clearbody st.
  pose proof (session_tasks_bound r0 st H) as Hlen.
  assert (Hr : captureRender st = r0) by (destruct H; assumption).
  split; [exact Hlen |].
  split; [pose proof (filter_length_le requestOpen (tasks st)); lia |].
  intros Hbusy. split.
  - rewrite Hr.
    now apply (session_processAudioChunk env r0 blob index total st H).
  - simpl. unfold onmessage.
    set (st1 := set_buffer _ _ st).
    assert (H1 : session r0 st1 /\ tasks st1 = tasks st).
    { split; [| reflexivity].
      destruct H as [? ? ? ? | t ? ? ? ? ? ?];
        [apply session_idle | apply (session_busy _ _ t)]; assumption. }
    clearbody st1. destruct H1 as [H1 E1].
    destruct (targetBufferSize <=? bufferSize st1); [| now split].
    set (st2 := set_overlapBuffer _ st1).
    assert (H2 : session r0 st2 /\ tasks st2 = tasks st).
    { split; [| exact E1].
      destruct H1 as [? ? ? ? | t ? ? ? ? ? ?];
        [apply session_idle | apply (session_busy _ _ t)]; assumption. }
    set (wav := WAVEncoder.processAudioBuffer _).
    clearbody st2 wav. destruct H2 as [H2 E2].
    destruct (audioContextRef st2); simpl; [| now split].
    assert (Hr2 : captureRender st2 = r0) by (destruct H2; assumption).
    rewrite Hr2.
    destruct (session_processAudioChunk env r0 wav (chunkIndexRef st2) (-1)
                st2 H2) as [_ Hdrop].
    rewrite Hdrop by congruence. simpl. now split.
Qed.

Lemma C1_single_submission_in_flight_witness :
  let st := fst (run example_env (startSpeech 0) [Frame (silence 32000)]) in
  tasks st <> [] /\
  processAudioChunk example_env (captureRender st) FromWorklet [] 1 (-1) st
    = (st, [Invoked 1 (-1)], Completed) /\
  tasks (fst (step example_env st (Frame (silence 128)))) = tasks st /\
  requests (snd (step example_env st (Frame (silence 128)))) = [].
Proof.
  assert (H : tasks (fst (run example_env (startSpeech 0)
                            [Frame (silence 32000)])) <> []).
  { intros E. apply (f_equal (@List.length Task)) in E.
    vm_compute in E. discriminate. }
  split; [exact H |].
  exact (proj2 (proj2 (C1_single_submission_in_flight
                         example_env 0 [Frame (silence 32000)]
                         [] 1 (-1) (silence 128))) H).
Defined.

(** C7.  Whenever no invocation is suspended, every [isProcessingAudio] is
    false.  A suspended invocation that leaves [processAudioChunk] -- by a
    rejection or exception at any [await], by a response that is not OK, or
    after the decoded body -- is removed and leaves the variable false.  A
    later invocation then either returns at once with the variable false
    (user or room unknown) or, when both are known, acquires it and is
    suspended. *)
Theorem C7_permit_released_on_every_exit env r0 evs k res blob index total :
  let st := fst (run env (startSpeech r0) evs) in
  let st' := fst (step env st (Settle k res)) in
  let r := processAudioChunk env (captureRender st) FromWorklet
             blob index total st in
  (exitsAt st k res = true ->
   tasks st' = [] /\ isProcessingAudio st' = []) /\
  (tasks st = [] ->
   isProcessingAudio st = [] /\
   if truthy (userId env) && truthy (roomId env)
   then snd r = Suspended /\ List.length (tasks (fst (fst r))) = 1%nat
   else snd r = Completed /\ isProcessingAudio (fst (fst r)) = []).
Proof.
  intros st st' r.
  assert (H : session r0 st) by apply session_reachable.
  subst st' r. clearbody st.
  split.
  - intros Hex. unfold exitsAt in Hex.
    destruct (nth_error (tasks st) k) as [t |] eqn:Hk; [| discriminate].
    simpl. unfold settle. rewrite Hk.
    assert (Ht : tasks st = [t] /\ k = 0%nat).
    { destruct H as [? ? Ht ? | t' ? ? Ht ? ? ?]; rewrite Ht in Hk.
      - now destruct k.
      - destruct k as [| [| k]]; simpl in Hk; try discriminate.
        injection Hk as ->. auto. }
    destruct Ht as [Ht ->].
    destruct (phase t), res as [| | [|] status | result];
      simpl in Hex; try discriminate; unfold failed;
      apply (session_finish r0 t _ st H Ht).
  - intros Ht.
    assert (Hf : isProcessingAudio st = [])
      by (destruct H as [? ? ? Hf | t ? ? Ht' ? ? ?]; congruence).
    split; [exact Hf |].
    unfold processAudioChunk, busy. rewrite Hf. simpl.
    destruct (userId env) as [[| u us] |]; simpl;
      try (split; [reflexivity | now rewrite Nat.eqb_refl, Hf]).
    destruct (roomId env) as [[| q qs] |]; simpl;
      try (split; [reflexivity | now rewrite Nat.eqb_refl, Hf]).
    split; [reflexivity | now rewrite Ht].
Qed.

Lemma C7_permit_released_on_every_exit_witness :
  let busy := fst (run example_env (startSpeech 0)
                     [Frame (silence 32000); Settle 0 ArrayBufferReady]) in
  let idle := fst (run example_env (startSpeech 0)
                     [Frame (silence 32000); Settle 0 Rejected]) in
  let r := processAudioChunk example_env (captureRender idle) FromWorklet
             [] 1 (-1) idle in
  (exitsAt busy 0 (Responded false 500) = true /\
   tasks (fst (step example_env busy (Settle 0 (Responded false 500)))) = [] /\
   isProcessingAudio
     (fst (step example_env busy (Settle 0 (Responded false 500)))) = []) /\
  (tasks idle = [] /\
   isProcessingAudio idle = [] /\
   snd r = Suspended /\ List.length (tasks (fst (fst r))) = 1%nat).
Proof.
  assert (H : exitsAt (fst (run example_env (startSpeech 0)
                         [Frame (silence 32000); Settle 0 ArrayBufferReady]))
                0 (Responded false 500) = true)
    by (vm_compute; reflexivity).
  assert (H' : tasks (fst (run example_env (startSpeech 0)
                         [Frame (silence 32000); Settle 0 Rejected])) = [])
    by (vm_compute; reflexivity).
  split.
  - split; [exact H |].
    exact (proj1 (C7_permit_released_on_every_exit example_env 0
                    [Frame (silence 32000); Settle 0 ArrayBufferReady]
                    0%nat (Responded false 500) [] 0 0) H).
  - split; [exact H' |].
    exact (proj2 (C7_permit_released_on_every_exit example_env 0
                    [Frame (silence 32000); Settle 0 Rejected]
                    0%nat Rejected [] 1 (-1)) H').
Defined.

(** C2, evaluated on the code.  128 samples are captured and [stopSpeech]
    is called: the samples are still in the handler's buffer, and
    [processAudioChunk] is not called and no request is posted. *)
Theorem C2_stop_discards_remainder :
  let r := run example_env (startSpeech 0) [Frame (silence 128); Stop 1] in
  audioBuffer (fst r) = [silence 128] /\
  bufferSize (fst r) = 128 /\
  invokedIndices (snd r) = [] /\
  requests (snd r) = [] /\
  tasks (fst r) = [].
Proof. vm_compute. repeat split. Qed.

(** C3, evaluated on the code.  A window is submitted with index 0; one
    more frame arrives while the request is open and is passed to
    [processAudioChunk] with index 0 again and dropped; after the response
    the next window is submitted with index 2.  The indices passed are
    0, 0, 2 and the indices posted are 0, 2. *)
Theorem C3_indices_repeat_and_skip :
  let r := run example_env (startSpeech 0)
             [Frame (silence 32000);
              Frame (silence 128);
              Settle 0 ArrayBufferReady;
              Settle 0 (Responded true 200);
              Settle 0 (Parsed hello);
              Frame (silence 32000);
              Settle 0 ArrayBufferReady] in
  invokedIndices (snd r) = [0; 0; 2] /\
  map chunkIndex (requests (snd r)) = [0; 2] /\
  map totalChunks (requests (snd r)) = [-1; -1].
Proof. vm_compute. repeat split. Qed.

End DispatchClaims.


(** * Further properties of the code *)

(** ** The WAV blob *)

Section WavBlob.

Import WAVEncoder DataView.

Lemma le32_recombine (u : Z) :
  0 <= u < 4294967296 ->
  u mod 256 + 256 * ((u / 256) mod 256) + 65536 * ((u / 65536) mod 256)
  + 16777216 * ((u / 16777216) mod 256) = u.
Proof. intros H. Z.div_mod_to_equations. lia. Qed.

Lemma le16_recombine (u : Z) :
  0 <= u < 65536 -> u mod 256 + 256 * ((u / 256) mod 256) = u.
Proof. intros H. Z.div_mod_to_equations. lia. Qed.

Lemma header_length (n sampleRate : Z) :
  List.length (header n sampleRate) = 44%nat.
Proof. reflexivity. Qed.

Lemma nth_header (k : nat) (samples : list number) (sampleRate : Z) :
  (k < 44)%nat ->
  nth k (encodeWAV samples sampleRate) 0
    = nth k (header (Z.of_nat (List.length samples)) sampleRate) 0.
Proof.
  intros Hk. unfold encodeWAV. apply app_nth1. now rewrite header_length.
Qed.

Lemma nth_data (k : nat) (samples : list number) (sampleRate : Z) :
  nth (44 + k) (encodeWAV samples sampleRate) 0
    = nth k (flat_map (fun s => setInt16 (times (clamp s) 0x7FFF)) samples) 0.
Proof.
  unfold encodeWAV. rewrite app_nth2; rewrite header_length; [| lia].
  f_equal. lia.
Qed.

Lemma nth_pairs {A : Type} (f : A -> Z * Z) (l : list A) (i : nat) (d : A) :
  (i < List.length l)%nat ->
  nth (2 * i) (flat_map (fun x => [fst (f x); snd (f x)]) l) 0 = fst (f (nth i l d))
  /\ nth (2 * i + 1) (flat_map (fun x => [fst (f x); snd (f x)]) l) 0
     = snd (f (nth i l d)).
Proof.
  revert i. induction l as [| x l IH]; intros i Hi; simpl in Hi; [lia |].
  destruct i as [| i]; [now split |].
  replace (2 * S i)%nat with (S (S (2 * i))) by lia.
  replace (S (S (2 * i)) + 1)%nat with (S (S (2 * i + 1))) by lia.
  simpl flat_map. simpl nth. apply IH. lia.
Qed.

Lemma getUint32_header (k : nat) (samples : list number) (sampleRate : Z) :
  (k + 3 < 44)%nat ->
  getUint32 (encodeWAV samples sampleRate) k
    = getUint32 (header (Z.of_nat (List.length samples)) sampleRate) k.
Proof.
  intros Hk. unfold getUint32, getUint8.
  now rewrite !nth_header by lia.
Qed.

Lemma getUint16_header (k : nat) (samples : list number) (sampleRate : Z) :
  (k + 1 < 44)%nat ->
  getUint16 (encodeWAV samples sampleRate) k
    = getUint16 (header (Z.of_nat (List.length samples)) sampleRate) k.
Proof.
  intros Hk. unfold getUint16, getUint8.
  now rewrite !nth_header by lia.
Qed.

Lemma getUint32_setUint32 (pre post : list Z) (v : Z) :
  0 <= v < 4294967296 ->
  getUint32 (pre ++ setUint32 v ++ post) (List.length pre) = v.
Proof.
  intros Hv. unfold getUint32, getUint8.
  rewrite <- (Nat.add_0_r (List.length pre)) at 1.
  rewrite 4!app_nth2_plus.
  unfold setUint32, ToUint32. simpl nth.
  rewrite (Z.mod_small v) by lia. now apply le32_recombine.
Qed.

(** X1.  The blob has 44 + 2n bytes, and its two size fields describe it:
    the RIFF chunk size (offset 4) is the blob length minus 8 and the data
    chunk size (offset 40) is the blob length minus 44, as long as the
    sizes fit in 32 bits. *)
Theorem X1_wav_sizes_describe_blob (samples : list number) (sampleRate : Z) :
  let blob := encodeWAV samples sampleRate in
  let size := Z.of_nat (List.length blob) in
  36 + 2 * Z.of_nat (List.length samples) < 4294967296 ->
  size = 44 + 2 * Z.of_nat (List.length samples) /\
  getUint32 blob 4 = size - 8 /\
  getUint32 blob 40 = size - 44.
Proof.
  intros blob size Hfit. subst blob size.
  rewrite encodeWAV_length.
  replace (Z.of_nat (44 + 2 * List.length samples))
    with (44 + 2 * Z.of_nat (List.length samples)) by lia.
  split; [reflexivity |].
  rewrite (getUint32_header 4), (getUint32_header 40) by (simpl; lia).
  pose proof (Nat2Z.is_nonneg (List.length samples)) as Hn.
  set (n := Z.of_nat (List.length samples)) in *. clearbody n.
  split.
  - change (header n sampleRate) with
      (writeString "RIFF" ++ setUint32 (36 + n * 2) ++
       (writeString "WAVE" ++ writeString "fmt " ++
        setUint32 16 ++ setUint16 1 ++ setUint16 1 ++
        setUint32 sampleRate ++ setUint32 (sampleRate * 2) ++
        setUint16 2 ++ setUint16 16 ++
        writeString "data" ++ setUint32 (n * 2))).
    change 4%nat with (List.length (writeString "RIFF")).
    rewrite getUint32_setUint32; lia.
  - change (header n sampleRate) with
      ((writeString "RIFF" ++ setUint32 (36 + n * 2) ++
        writeString "WAVE" ++ writeString "fmt " ++
        setUint32 16 ++ setUint16 1 ++ setUint16 1 ++
        setUint32 sampleRate ++ setUint32 (sampleRate * 2) ++
        setUint16 2 ++ setUint16 16 ++
        writeString "data") ++ setUint32 (n * 2) ++ []).
    change 40%nat with
      (List.length (writeString "RIFF" ++ setUint32 (36 + n * 2) ++
        writeString "WAVE" ++ writeString "fmt " ++
        setUint32 16 ++ setUint16 1 ++ setUint16 1 ++
        setUint32 sampleRate ++ setUint32 (sampleRate * 2) ++
        setUint16 2 ++ setUint16 16 ++
        writeString "data")).
    rewrite getUint32_setUint32; lia.
Qed.

Lemma X1_wav_sizes_describe_blob_witness :
  let blob := encodeWAV [Fin (1 # 2); Fin (-1); NaN] 16000 in
  let size := Z.of_nat (List.length blob) in
  36 + 2 * 3 < 4294967296 /\
  size = 44 + 2 * 3 /\ getUint32 blob 4 = size - 8 /\ getUint32 blob 40 = size - 44.
Proof.
  split; [lia |].
  apply (X1_wav_sizes_describe_blob [Fin (1 # 2); Fin (-1); NaN] 16000).
  simpl. lia.
Defined.

(** X2.  The format fields of the header are those of canonical mono
    16-bit PCM at the given rate: the four tags, a 16-byte format chunk,
    format 1, one channel, block align 2, 16 bits per sample, and the
    sample rate with a byte rate of twice the sample rate. *)
Theorem X2_wav_format_fields (samples : list number) (sampleRate : Z) :
  let blob := encodeWAV samples sampleRate in
  0 <= sampleRate -> sampleRate * 2 < 4294967296 ->
  firstn 4 blob = writeString "RIFF" /\
  firstn 8 (skipn 8 blob) = writeString "WAVEfmt " /\
  firstn 4 (skipn 36 blob) = writeString "data" /\
  getUint32 blob 16 = 16 /\
  getUint16 blob 20 = 1 /\
  getUint16 blob 22 = 1 /\
  getUint32 blob 24 = sampleRate /\
  getUint32 blob 28 = sampleRate * 2 /\
  getUint16 blob 32 = 2 /\
  getUint16 blob 34 = 16.
Proof.
  intros blob Hlo Hhi. subst blob.
  rewrite (getUint32_header 16), (getUint32_header 24), (getUint32_header 28),
    (getUint16_header 20), (getUint16_header 22), (getUint16_header 32),
    (getUint16_header 34) by (simpl; lia).
  set (n := Z.of_nat (List.length samples)).
  repeat split; try reflexivity.
  - change (getUint32 (header n sampleRate) 24) with
      (let u := ToUint32 sampleRate in
       u mod 256 + 256 * ((u / 256) mod 256) + 65536 * ((u / 65536) mod 256)
       + 16777216 * ((u / 16777216) mod 256)).
    unfold ToUint32. rewrite (Z.mod_small sampleRate) by lia.
    apply le32_recombine. lia.
  - change (getUint32 (header n sampleRate) 28) with
      (let u := ToUint32 (sampleRate * 2) in
       u mod 256 + 256 * ((u / 256) mod 256) + 65536 * ((u / 65536) mod 256)
       + 16777216 * ((u / 16777216) mod 256)).
    unfold ToUint32. rewrite (Z.mod_small (sampleRate * 2)) by lia.
    apply le32_recombine. lia.
Qed.

Lemma X2_wav_format_fields_witness :
  let blob := encodeWAV [Fin (1 # 2); Fin (-1)] 16000 in
  (0 <= 16000 /\ 16000 * 2 < 4294967296) /\
  getUint32 blob 24 = 16000 /\ getUint32 blob 28 = 16000 * 2.
Proof.
  split; [lia |].
  pose proof (X2_wav_format_fields [Fin (1 # 2); Fin (-1)] 16000
                ltac:(lia) ltac:(lia)) as H.
  split; apply H.
Defined.

Lemma getInt16_setInt16 (v : number) (l : list Z) (k : nat) :
  -32768 <= ToInt16 v <= 32767 ->
  nth k l 0 = (ToInt16 v mod 65536) mod 256 ->
  nth (k + 1) l 0 = ((ToInt16 v mod 65536) / 256) mod 256 ->
  getInt16 l k = ToInt16 v.
Proof.
  intros Hv H0 H1. unfold getInt16, getUint16, getUint8. rewrite H0, H1.
  set (u := ToInt16 v mod 65536).
  assert (Hu : 0 <= u < 65536) by (apply Z.mod_pos_bound; lia).
  rewrite (le16_recombine u Hu).
  assert (Hcase : (0 <= ToInt16 v /\ u = ToInt16 v) \/
                  (ToInt16 v < 0 /\ u = ToInt16 v + 65536)).
  { subst u. destruct (Z_le_gt_dec 0 (ToInt16 v)).
    - left. split; [lia |]. apply Z.mod_small. lia.
    - right. split; [lia |].
      rewrite <- (Z.mod_small (ToInt16 v + 65536) 65536) by lia.
      replace (ToInt16 v + 65536) with (ToInt16 v + 1 * 65536) by ring.
      now rewrite Z_mod_plus_full. }
  destruct Hcase as [[? ->] | [? ->]];
    destruct (Z.ltb_spec (ToInt16 v) 32768);
    destruct (Z.ltb_spec (ToInt16 v + 65536) 32768); lia.
Qed.

(** X3.  Reading the data section back gives the quantised samples: the
    signed 16-bit little-endian value at offset 44 + 2i is [pcm16] of
    sample i. *)
Theorem X3_wav_samples_read_back (samples : list number) (sampleRate : Z)
    (i : nat) :
  (i < List.length samples)%nat ->
  getInt16 (encodeWAV samples sampleRate) (44 + 2 * i)
    = pcm16 (nth i samples NaN).
Proof.
  intros Hi.
  pose proof (nth_pairs
    (fun s => ((ToInt16 (times (clamp s) 0x7FFF) mod 65536) mod 256,
               ((ToInt16 (times (clamp s) 0x7FFF) mod 65536) / 256) mod 256))
    samples i NaN Hi) as [H0 H1].
  simpl fst in *. simpl snd in *.
  unfold pcm16.
  apply getInt16_setInt16.
  - pose proof (pcm16_bounds (nth i samples NaN)) as Hb.
    unfold pcm16 in Hb. lia.
  - rewrite nth_data. exact H0.
  - replace (44 + 2 * i + 1)%nat with (44 + (2 * i + 1))%nat by lia.
    rewrite nth_data. exact H1.
Qed.

Lemma X3_wav_samples_read_back_witness :
  (1 < List.length [Fin (1 # 2); Fin (-3); NaN])%nat /\
  getInt16 (encodeWAV [Fin (1 # 2); Fin (-3); NaN] 16000) (44 + 2 * 1)
    = pcm16 (Fin (-3)).
Proof.
  split; [simpl; lia |].
  apply (X3_wav_samples_read_back [Fin (1 # 2); Fin (-3); NaN] 16000 1).
  simpl. lia.
Defined.

(** X4.  Every element of the blob is a byte value. *)
Theorem X4_wav_blob_is_bytes (samples : list number) (sampleRate : Z) :
  Forall isByte (encodeWAV samples sampleRate).
Proof.
  unfold encodeWAV. apply Forall_app. split.
  - unfold header, setUint32, setUint16, writeString. simpl.
    repeat constructor;
      try (apply Z.mod_pos_bound; lia); try (apply Z.leb_le; reflexivity);
      try reflexivity.
  - induction samples as [| s samples IH]; simpl; [constructor |].
    constructor; [apply Z.mod_pos_bound; lia |].
    constructor; [apply Z.mod_pos_bound; lia | exact IH].
Qed.

Lemma truncate_mono (q q' : Q) : (q <= q')%Q -> truncate q <= truncate q'.
Proof.
  unfold Qle, truncate. destruct q as [n d], q' as [n' d']. simpl.
  intros H.
  rewrite <- (Z.quot_mul_cancel_r n (Z.pos d) (Z.pos d')) by lia.
  rewrite <- (Z.quot_mul_cancel_r n' (Z.pos d') (Z.pos d)) by lia.
  rewrite (Z.mul_comm (Z.pos d') (Z.pos d)).
  apply Z.quot_le_mono; lia.
Qed.

Lemma clamp_Fin (q : Q) :
  exists c, clamp (Fin q) = Fin c /\ (-1 <= c)%Q /\ (c <= 1)%Q /\
    (((1 <= q)%Q /\ c = 1%Q) \/
     ((q < 1)%Q /\ (-1 <= q)%Q /\ c = q) \/
     ((q < -1)%Q /\ c = (-1)%Q)).
Proof.
  unfold clamp. simpl.
  destruct (Qle_bool 1 q) eqn:Hhi; simpl.
  - apply Qle_bool_iff in Hhi. exists 1%Q.
    split; [reflexivity |]. split; [discriminate |]. split; [discriminate |].
    left. now split.
  - assert (Hlt : (q < 1)%Q).
    { apply Qnot_le_lt. intro H. apply Qle_bool_iff in H. congruence. }
    destruct (Qle_bool (-1) q) eqn:Hlo.
    + apply Qle_bool_iff in Hlo. exists q.
      split; [reflexivity |]. split; [exact Hlo |].
      split; [now apply Qlt_le_weak |].
      right. left. repeat split; assumption.
    + assert (Hlt' : (q < -1)%Q).
      { apply Qnot_le_lt. intro H. apply Qle_bool_iff in H. congruence. }
      exists (-1)%Q.
      split; [reflexivity |]. split; [discriminate |]. split; [discriminate |].
      right. right. now split.
Qed.

(** X5.  Quantisation preserves order: a sample that is not larger is
    stored as a value that is not larger. *)
Theorem X5_pcm16_monotone (q q' : Q) :
  (q <= q')%Q -> pcm16 (Fin q) <= pcm16 (Fin q').
Proof.
  intros Hle. unfold pcm16.
  destruct (clamp_Fin q) as (c & -> & Hlo & Hhi & Hc).
  destruct (clamp_Fin q') as (c' & -> & Hlo' & Hhi' & Hc').
  simpl times.
  rewrite !ToInt16_small
    by (pose proof (truncate_scaled c Hlo Hhi);
        pose proof (truncate_scaled c' Hlo' Hhi'); lia).
  apply truncate_mono. apply Qmult_le_compat_r; [| discriminate].
  destruct Hc as [[H1 ->] | [(H1 & H2 & ->) | [H1 ->]]];
    destruct Hc' as [[H1' ->] | [(H1' & H2' & ->) | [H1' ->]]]; lra.
Qed.

Lemma X5_pcm16_monotone_witness :
  (-1 # 3 <= 1 # 4)%Q /\ pcm16 (Fin (-1 # 3)) <= pcm16 (Fin (1 # 4)).
Proof.
  assert (H : (-1 # 3 <= 1 # 4)%Q) by (unfold Qle; simpl; lia).
  split; [exact H | exact (X5_pcm16_monotone _ _ H)].
Defined.

End WavBlob.


(** ** The recording session *)

Section SessionFacts.

Import Captions Dispatch Session.

Variable env : Env.

(** The three ways a call of [processAudioChunk] can go. *)
Lemma processAudioChunk_cases c who blob index total st :
  let r := processAudioChunk env c who blob index total st in
  (busy c st = true /\ r = (st, [Invoked index total], Completed)) \/
  (busy c st = false /\
   truthy (userId env) && truthy (roomId env) = false /\
   r = (release c (acquire c st),
        [Invoked index total; Toast (lit "Missing user or room information")],
        Completed)) \/
  (busy c st = false /\
   exists u r', userId env = Some u /\ u <> [] /\
                roomId env = Some r' /\ r' <> [] /\
     r = (set_tasks
            (tasks st ++
               [{| caller := who; cell := c; phase := AwaitArrayBuffer;
                   task_userId := u; task_roomId := r'; task_blob := blob;
                   task_chunkIndex := index; task_totalChunks := total |}])
            (setIsProcessing true (acquire c st)),
          [Invoked index total], Suspended)).
Proof.
  unfold processAudioChunk.
  destruct (busy c st); [now left | right].
  destruct (userId env) as [[| u us] |]; simpl;
    try (left; repeat split; reflexivity).
  destruct (roomId env) as [[| q qs] |]; simpl;
    try (left; repeat split; reflexivity).
  right. split; [reflexivity |].
  exists (u :: us), (q :: qs). repeat split; discriminate.
Qed.

(** [processAudioChunk] does not touch the capture variables. *)
Lemma processAudioChunk_frame c who blob index total st :
  let st' := fst (fst (processAudioChunk env c who blob index total st)) in
  audioBuffer st' = audioBuffer st /\ bufferSize st' = bufferSize st /\
  overlapBuffer st' = overlapBuffer st /\
  chunkIndexRef st' = chunkIndexRef st /\
  audioContextRef st' = audioContextRef st /\
  audioChunksRef st' = audioChunksRef st.
Proof.
  destruct (processAudioChunk_cases c who blob index total st)
    as [[_ E] | [(_ & _ & E) | (_ & u & r' & _ & _ & _ & _ & E)]];
    simpl in E; simpl; rewrite E; repeat split.
Qed.

Lemma buffered_step st ev :
  bufferSize st = buffered st ->
  bufferSize (fst (step env st ev)) = buffered (fst (step env st ev)).
Proof.
  intros H. unfold buffered in *.
  destruct ev as [inputData | k res | r]; simpl.
  - unfold onmessage.
    set (st1 := set_buffer _ _ st).
    assert (H1 : bufferSize st1
                 = Z.of_nat (List.length (List.concat (audioBuffer st1)))).
    { subst st1. simpl. rewrite H, concat_app, length_app. simpl.
      rewrite app_nil_r. lia. }
    clearbody st1.
    destruct (targetBufferSize <=? bufferSize st1); [| exact H1].
    set (st2 := set_overlapBuffer _ st1).
    assert (H2 : bufferSize st2
                 = Z.of_nat (List.length (List.concat (audioBuffer st2))))
      by exact H1.
    set (wav := WAVEncoder.processAudioBuffer _).
    clearbody st2 wav.
    destruct (audioContextRef st2); simpl; [| exact H2].
    pose proof (processAudioChunk_frame (captureRender st2) FromWorklet wav
                  (chunkIndexRef st2) (-1) st2) as (Hb & Hs & _).
    destruct (processAudioChunk _ _ _ _ _ _ st2) as [[st3 out] [|]];
      simpl in *; [reflexivity | congruence].
  - unfold settle.
    destruct (nth_error (tasks st) k) as [t |]; [| exact H].
    assert (Hfin : forall out,
              bufferSize (fst (finish k t out st))
              = Z.of_nat (List.length
                            (List.concat (audioBuffer (fst (finish k t out st)))))).
    { intros out. unfold finish, continue, afterFinalChunk, finishStop.
      destruct (caller t); simpl; [reflexivity | exact H]. }
    destruct (phase t), res as [| | [|] status | result]; simpl;
      try exact H; try apply Hfin.
  - unfold stopSpeech. simpl.
    destruct (audioChunksRef st) as [| a l] eqn:Ea; simpl; [exact H |].
    pose proof (processAudioChunk_frame r FromStop
                  (WAVEncoder.processAudioBuffer
                     (List.concat (audioChunksRef (set_audioContextRef false st))))
                  (chunkIndexRef (set_audioContextRef false st))
                  (chunkIndexRef (set_audioContextRef false st) + 1)
                  (set_audioContextRef false st)) as (Hb & Hs & _).
    simpl in Hb, Hs. rewrite Ea in Hb, Hs. simpl in Hb, Hs.
    destruct (processAudioChunk _ _ _ _ _ _ _) as [[st3 out] [|]];
      simpl in *; congruence.
Qed.

Lemma buffered_run evs :
  forall st,
    bufferSize st = buffered st ->
    bufferSize (fst (run env st evs)) = buffered (fst (run env st evs)).
Proof.
  induction evs as [| ev evs IH]; intros st H; simpl; [exact H |].
  pose proof (buffered_step st ev H) as H1.
  destruct (step env st ev) as [st1 out1]. simpl in H1.
  specialize (IH st1 H1).
  destruct (run env st1 evs) as [st2 out2]. exact IH.
Qed.

Lemma onmessage_outcomes inputData st :
  onmessage_outcome env inputData st (onmessage env inputData st).
Proof.
  unfold onmessage. fold (stored inputData st).
  destruct (targetBufferSize <=? bufferSize (stored inputData st)) eqn:Hth.
  2: { apply frame_buffered. now apply Z.leb_gt. }
  apply Z.leb_le in Hth.
  change (match overlapBuffer (stored inputData st) with
          | Some overlap =>
              overlap ++ List.concat (audioBuffer (stored inputData st))
          | None => List.concat (audioBuffer (stored inputData st))
          end) with (window inputData st).
  fold (overlapped inputData st).
  change (audioContextRef (overlapped inputData st))
    with (audioContextRef st).
  destruct (audioContextRef st) eqn:Hctx; simpl negb; cbv iota.
  2: { now apply frame_after_stop. }
  change (captureRender (overlapped inputData st)) with (captureRender st).
  change (chunkIndexRef (overlapped inputData st)) with (chunkIndexRef st).
  destruct (processAudioChunk_cases (captureRender st) FromWorklet
              (WAVEncoder.processAudioBuffer (window inputData st))
              (chunkIndexRef st) (-1) (overlapped inputData st))
    as [[Hb E] | [(Hb & Hm & E) | (Hb & u & r & Hu & Hu' & Hr & Hr' & E)]];
    simpl in E; rewrite E.
  - now apply frame_dropped.
  - now apply frame_refused.
  - now apply (frame_submitted _ _ _ u r).
Qed.

Lemma settle_outcomes k res st :
  settle_outcome env k res st (settle env k res st).
Proof.
  unfold settle.
  destruct (nth_error (tasks st) k) as [t |] eqn:Hk.
  2: { apply settle_ignored. intros t Ht. congruence. }
  destruct (phase t) eqn:Hp, res as [| | [|] status | result]; unfold failed;
    try (apply (settle_left _ _ _ _ t); [exact Hk | now rewrite Hp | now left]);
    try (apply settle_ignored; intros t' Ht'; rewrite Hk in Ht';
         injection Ht' as <-; now rewrite Hp).
  - now apply settle_posted.
  - now apply (settle_answered _ _ _ _ t status).
  - apply (settle_left _ _ _ _ t); [exact Hk | now rewrite Hp |].
    right. now exists result.
Qed.

Variable r0 : nat.

Lemma stopSpeech_outcome r st :
  session r0 st ->
  stopSpeech env r st = finishStop (set_audioContextRef false st).
Proof.
  intros H. unfold stopSpeech. simpl.
  assert (Ha : audioChunksRef st = []) by (destruct H; assumption).
  now rewrite Ha.
Qed.

Lemma finish_fields k t out st :
  let st' := fst (finish k t out st) in
  tasks st' = remove_nth k (tasks st) /\
  overlapBuffer st' = overlapBuffer st /\
  audioContextRef st' = audioContextRef st.
Proof.
  unfold finish, continue, afterFinalChunk, finishStop.
  destruct (caller t); simpl; repeat split.
Qed.

Lemma Forall_remove_nth {A : Type} (P : A -> Prop) (k : nat) (l : list A) :
  Forall P l -> Forall P (remove_nth k l).
Proof.
  intros H. revert k. induction H as [| x l Hx Hl IH]; intros [| k]; simpl;
    auto.
Qed.

Lemma Forall_replace_nth {A : Type} (P : A -> Prop) (k : nat) (y : A)
    (l : list A) :
  P y -> Forall P l -> Forall P (replace_nth k y l).
Proof.
  intros Hy H. revert k. induction H as [| x l Hx Hl IH]; intros [| k]; simpl;
    auto.
Qed.

Lemma overlapOf_length (l : list number) :
  overlapSize <= Z.of_nat (List.length l) ->
  Z.of_nat (List.length (overlapOf l)) = overlapSize.
Proof.
  intros H. unfold overlapOf.
  destruct (Z.leb_spec overlapSize (Z.of_nat (List.length l))); [| lia].
  rewrite length_skipn. unfold overlapSize in *. lia.
Qed.

Lemma window_length inputData st :
  bufferSize st = buffered st ->
  targetBufferSize <= bufferSize (stored inputData st) ->
  targetBufferSize <= Z.of_nat (List.length (window inputData st)).
Proof.
  unfold buffered, stored, window. simpl. intros H Hth.
  rewrite H in Hth.
  assert (E : Z.of_nat (List.length (List.concat (audioBuffer st ++ [inputData])))
              = Z.of_nat (List.length (List.concat (audioBuffer st)))
                + Z.of_nat (List.length inputData)).
  { rewrite concat_app, length_app. simpl. rewrite app_nil_r. lia. }
  destruct (overlapBuffer st); rewrite ?length_app; lia.
Qed.

Lemma overlapFull_step st ev :
  session r0 st -> bufferSize st = buffered st ->
  overlapFull st -> overlapFull (fst (step env st ev)).
Proof.
  intros Hs Hb Ho. destruct ev as [inputData | k res | r]; simpl.
  - assert (Hnew : targetBufferSize <= bufferSize (stored inputData st) ->
                   Z.of_nat (List.length (overlapOf (window inputData st)))
                   = overlapSize).
    { intros Hth. apply overlapOf_length.
      pose proof (window_length inputData st Hb Hth).
      unfold targetBufferSize, overlapSize in *. lia. }
    destruct (onmessage_outcomes inputData st); simpl;
      unfold overlapFull; simpl; auto.
  - destruct (settle_outcomes k res st) as [? | t ? ? ? | t status ? ? ? | t out ? ? ?];
      try exact Ho.
    unfold overlapFull.
    now destruct (finish_fields k t out st) as (_ & -> & _).
  - rewrite (stopSpeech_outcome r st Hs). exact Ho.
Qed.

Lemma taskWellFormed_phase p t :
  taskWellFormed env t -> taskWellFormed env (with_phase p t).
Proof. intros H. exact H. Qed.

Lemma requestOf_wellFormed t :
  taskWellFormed env t -> wellFormed env (requestOf env t).
Proof.
  intros (Hm & Hu & Hu' & Hr & Hr' & Hlen).
  unfold wellFormed, requestOf. simpl. repeat split; assumption.
Qed.

Lemma tasks_step st ev :
  session r0 st -> bufferSize st = buffered st ->
  Forall (taskWellFormed env) (tasks st) ->
  Forall (taskWellFormed env) (tasks (fst (step env st ev))) /\
  Forall (wellFormed env) (requests (snd (step env st ev))).
Proof.
  intros Hs Hb Ht. destruct ev as [inputData | k res | r]; simpl.
  - destruct (onmessage_outcomes inputData st)
      as [? | ? ? | ? ? ? | ? ? ? ? | u r Hth ? ? Hu Hu' Hr Hr'];
      simpl; split; try exact Ht; try constructor.
    apply Forall_app. split; [exact Ht |]. constructor; [| constructor].
    unfold taskWellFormed, submitted.
    cbn [task_totalChunks task_userId task_roomId task_blob].
    repeat split; try assumption.
    exists (Z.of_nat (List.length (window inputData st))).
    split; [apply (window_length inputData st Hb Hth) |].
    unfold WAVEncoder.processAudioBuffer. rewrite encodeWAV_length. lia.
  - destruct (settle_outcomes k res st)
      as [? | t Hk ? ? | t status Hk ? ? | t out Hk ? ?]; simpl.
    + split; [exact Ht | constructor].
    + assert (Hwf : taskWellFormed env t).
      { eapply Forall_forall; [exact Ht |]. eapply nth_error_In; exact Hk. }
      split.
      * apply Forall_replace_nth; [now apply taskWellFormed_phase | exact Ht].
      * constructor; [now apply requestOf_wellFormed | constructor].
    + assert (Hwf : taskWellFormed env t).
      { eapply Forall_forall; [exact Ht |]. eapply nth_error_In; exact Hk. }
      split; [| constructor].
      apply Forall_replace_nth; [now apply taskWellFormed_phase | exact Ht].
    + destruct (finish_fields k t out st) as (E & _ & _).
      split.
      * rewrite E. now apply Forall_remove_nth.
      * assert (Hout : requests out = []).
        { destruct H0 as [-> | (result & _ & ->)]; [reflexivity |].
          unfold onResult.
          destruct (_ && _); [| reflexivity].
          now destruct (is_listener (role env)). }
        unfold finish. destruct (continue _ _) as [st' out'] eqn:Ec. simpl.
        unfold requests in *. rewrite flat_map_app, Hout. simpl.
        unfold continue, afterFinalChunk, finishStop in Ec.
        destruct (caller t); injection Ec as <- <-; constructor.
  - rewrite (stopSpeech_outcome r st Hs). simpl. split; [exact Ht | constructor].
Qed.

Lemma kept_start : kept env r0 (startSpeech r0).
Proof. split; [apply session_start | reflexivity | exact I | constructor]. Qed.

Lemma kept_step st ev : kept env r0 st -> kept env r0 (fst (step env st ev)).
Proof.
  intros [Hs Hb Ho Ht]. split.
  - now apply session_step.
  - now apply buffered_step.
  - now apply overlapFull_step.
  - now apply tasks_step.
Qed.

Lemma kept_run evs : forall st, kept env r0 st -> kept env r0 (fst (run env st evs)).
Proof.
  induction evs as [| ev evs IH]; intros st H; simpl; [exact H |].
  pose proof (kept_step st ev H) as H1.
  destruct (step env st ev) as [st1 out1]. simpl in H1.
  specialize (IH st1 H1).
  destruct (run env st1 evs) as [st2 out2]. exact IH.
Qed.

Lemma requests_run evs :
  forall st, kept env r0 st ->
    Forall (wellFormed env) (requests (snd (run env st evs))).
Proof.
  induction evs as [| ev evs IH]; intros st H; simpl; [constructor |].
  pose proof (kept_step st ev H) as H1.
  destruct H as [Hs Hb Ho Ht].
  pose proof (proj2 (tasks_step st ev Hs Hb Ht)) as H2.
  destruct (step env st ev) as [st1 out1]. simpl in H1, H2.
  specialize (IH st1 H1).
  destruct (run env st1 evs) as [st2 out2]. simpl in *.
  unfold requests in *. rewrite flat_map_app. apply Forall_app. now split.
Qed.

Lemma session_nth st k t :
  session r0 st -> nth_error (tasks st) k = Some t ->
  tasks st = [t] /\ k = 0%nat /\ caller t = FromWorklet /\ cell t = r0.
Proof.
  intros H Hk. destruct H as [? ? Ht ? | t' ? ? Ht ? ? ?]; rewrite Ht in Hk.
  - now destruct k.
  - destruct k as [| [| k]]; simpl in Hk; try discriminate.
    injection Hk as ->. auto.
Qed.

Lemma session_busy_tasks st :
  session r0 st ->
  if busy (captureRender st) st
  then exists t, tasks st = [t] /\ caller t = FromWorklet
  else tasks st = [].
Proof.
  intros [? Hr Ht Hf | t ? Hr Ht ? ? Hf]; unfold busy; rewrite Hf, Hr; simpl.
  - exact Ht.
  - rewrite Nat.eqb_refl. simpl. now exists t.
Qed.

Lemma finish_worklet k t out st :
  caller t = FromWorklet ->
  finish k t out st =
    (afterChunk (release (cell t) (setIsProcessing false
                   (set_tasks (remove_nth k (tasks st)) st))),
     out ++ []).
Proof. intros H. unfold finish, continue. now rewrite H. Qed.

Lemma invokedIndices_app a b :
  invokedIndices (a ++ b) = invokedIndices a ++ invokedIndices b.
Proof. unfold invokedIndices. apply flat_map_app. Qed.

Lemma onResult_labels result :
  invokedIndices (onResult env result) = [] /\
  requests (onResult env result) = [] /\
  (is_listener (role env) = false ->
   flat_map played (onResult env result) = []) /\
  (List.length (flat_map transcribed (onResult env result)) <= 1)%nat.
Proof.
  unfold onResult.
  destruct (_ && _); [| repeat split; simpl; lia].
  destruct (is_listener (role env)); simpl; repeat split;
    try discriminate; lia.
Qed.

(** What one step passes to [processAudioChunk], and how the context and
    the index move. *)
Lemma invoked_step st ev :
  session r0 st ->
  (invokedIndices (snd (step env st ev)) = [] \/
   (invokedIndices (snd (step env st ev)) = [chunkIndexRef st] /\
    audioContextRef st = true)) /\
  (audioContextRef (fst (step env st ev)) = true ->
   audioContextRef st = true /\
   chunkIndexRef st <= chunkIndexRef (fst (step env st ev))).
Proof.
  intros Hs. destruct ev as [inputData | k res | r]; simpl.
  - destruct (onmessage_outcomes inputData st); simpl;
      (split; [auto | intros Hc; split; [assumption || congruence | lia]]).
  - destruct (settle_outcomes k res st)
      as [? | t Hk ? ? | t status Hk ? ? | t out Hk Hex Hout]; simpl;
      try (split; [now left | intros Hc; split; [exact Hc | lia]]).
    destruct (session_nth st k t Hs Hk) as (_ & _ & Hw & _).
    rewrite (finish_worklet k t out st Hw). simpl.
    split; [| intros Hc; split; [exact Hc | lia]].
    left. rewrite app_nil_r.
    destruct Hout as [-> | (result & _ & ->)]; [reflexivity |].
    apply onResult_labels.
  - rewrite (stopSpeech_outcome r st Hs). simpl.
    split; [now left | discriminate].
Qed.

Lemma invoked_run evs :
  forall st, session r0 st ->
    StronglySorted Z.le (invokedIndices (snd (run env st evs))) /\
    Forall (fun i => audioContextRef st = true /\ chunkIndexRef st <= i)
           (invokedIndices (snd (run env st evs))).
Proof.
  induction evs as [| ev evs IH]; intros st Hs; simpl.
  - split; constructor.
  - pose proof (session_step env r0 st ev Hs) as Hs1.
    destruct (invoked_step st ev Hs) as [Hout Hctx].
    destruct (step env st ev) as [st1 out1]. simpl in *.
    destruct (IH st1 Hs1) as [Hsorted Hall].
    destruct (run env st1 evs) as [st2 out2]. simpl in *.
    rewrite invokedIndices_app.
    assert (Hall' : Forall (fun i => audioContextRef st = true /\
                                     chunkIndexRef st <= i)
                           (invokedIndices out2)).
    { eapply Forall_impl; [| exact Hall]. simpl.
      intros i [Hc Hi]. destruct (Hctx Hc). split; [assumption | lia]. }
    destruct Hout as [-> | [-> Hc]]; simpl.
    + now split.
    + split.
      * constructor; [exact Hsorted |].
        eapply Forall_impl; [| exact Hall']. simpl. intros i [_ Hi]. exact Hi.
      * constructor; [split; [exact Hc | lia] | exact Hall'].
Qed.

Lemma posted_step st ev lo :
  session r0 st -> ahead st lo ->
  (requests (snd (step env st ev)) = [] /\
   ahead (fst (step env st ev)) lo) \/
  (exists q, requests (snd (step env st ev)) = [q] /\
             lo <= chunkIndex q /\
             ahead (fst (step env st ev)) (chunkIndex q + 1)).
Proof.
  intros Hs Ha. destruct ev as [inputData | k res | r]; simpl.
  - pose proof (session_busy_tasks st Hs) as Hb.
    destruct (onmessage_outcomes inputData st)
      as [? | ? ? | ? Hc Hbusy | ? Hc Hbusy ? | u r' ? Hc Hbusy ? ? ? ?];
      left; (split; [reflexivity |]); try exact Ha;
      rewrite Hbusy in Hb; unfold ahead in *; simpl.
    + destruct Hb as (t & Ht & _). rewrite Ht in *.
      destruct Ha as [H1 H2]. split; [exact H1 |].
      intros _. destruct (H2 Hc). lia.
    + rewrite Hb in *. intros _. specialize (Ha Hc). lia.
    + rewrite Hb in *. simpl. specialize (Ha Hc). split; intros; lia.
  - destruct (settle_outcomes k res st)
      as [? | t Hk Hp ? | t status Hk Hp ? | t out Hk Hex Hout].
    + left. now split.
    + destruct (session_nth st k t Hs Hk) as (Ht & -> & _ & _).
      right. exists (requestOf env t). simpl.
      unfold ahead in *. rewrite Ht in *. simpl.
      destruct Ha as [H1 H2].
      split; [reflexivity |]. split; [now apply H1 |].
      split; [discriminate |].
      intros Hc. destruct (H2 Hc). split; lia.
    + destruct (session_nth st k t Hs Hk) as (Ht & -> & _ & _).
      left. split; [reflexivity |].
      unfold ahead in *. rewrite Ht in *. simpl.
      destruct Ha as [H1 H2]. split; [discriminate | exact H2].
    + destruct (session_nth st k t Hs Hk) as (Ht & -> & Hw & _).
      rewrite (finish_worklet 0 t out st Hw). left. simpl.
      rewrite app_nil_r. split.
      * destruct Hout as [-> | (result & _ & ->)]; [reflexivity |].
        apply onResult_labels.
      * unfold ahead in *. rewrite Ht in *. simpl.
        destruct Ha as [H1 H2]. intros Hc. destruct (H2 Hc). lia.
  - rewrite (stopSpeech_outcome r st Hs). left. split; [reflexivity |].
    unfold ahead in *. simpl.
    destruct (tasks st) as [| t l]; [discriminate |].
    destruct Ha as [H1 H2]. split; [exact H1 | discriminate].
Qed.

Lemma posted_run evs :
  forall st lo, session r0 st -> ahead st lo ->
    StronglySorted Z.lt (postedIndices (snd (run env st evs))) /\
    Forall (fun i => lo <= i) (postedIndices (snd (run env st evs))).
Proof.
  induction evs as [| ev evs IH]; intros st lo Hs Ha; simpl.
  - split; constructor.
  - pose proof (session_step env r0 st ev Hs) as Hs1.
    pose proof (posted_step st ev lo Hs Ha) as Hstep.
    destruct (step env st ev) as [st1 out1]. simpl in *.
    unfold postedIndices, requests in *.
    destruct Hstep as [[Hout Ha1] | (q & Hout & Hq & Ha1)].
    + destruct (IH st1 lo Hs1 Ha1) as [Hsorted Hall].
      destruct (run env st1 evs) as [st2 out2]. simpl in *.
      now rewrite flat_map_app, Hout.
    + destruct (IH st1 (chunkIndex q + 1) Hs1 Ha1) as [Hsorted Hall].
      destruct (run env st1 evs) as [st2 out2]. simpl in *.
      rewrite flat_map_app, Hout. simpl. split.
      * constructor; [exact Hsorted |].
        eapply Forall_impl; [| exact Hall]. simpl. intros; lia.
      * constructor; [exact Hq |].
        eapply Forall_impl; [| exact Hall]. simpl. intros; lia.
Qed.

Lemma stopped_run evs :
  forall st, session r0 st -> audioContextRef st = false ->
    invokedIndices (snd (run env st evs)) = [] /\
    audioContextRef (fst (run env st evs)) = false.
Proof.
  induction evs as [| ev evs IH]; intros st Hs Hc; simpl; [now split |].
  pose proof (session_step env r0 st ev Hs) as Hs1.
  destruct (invoked_step st ev Hs) as [Hout Hctx].
  destruct (step env st ev) as [st1 out1]. simpl in *.
  assert (Hc1 : audioContextRef st1 = false).
  { destruct (audioContextRef st1); [| reflexivity].
    destruct (Hctx eq_refl). congruence. }
  destruct (IH st1 Hs1 Hc1) as [Hrest Hfin].
  destruct (run env st1 evs) as [st2 out2]. simpl in *.
  rewrite invokedIndices_app, Hrest.
  destruct Hout as [-> | [_ Hc']]; [now split | congruence].
Qed.

Lemma labels_step st ev :
  session r0 st ->
  (is_listener (role env) = false ->
   flat_map played (snd (step env st ev)) = []) /\
  (List.length (flat_map transcribed (snd (step env st ev)))
   + openRequests (fst (step env st ev))
   <= List.length (requests (snd (step env st ev))) + openRequests st)%nat.
Proof.
  intros Hs. unfold openRequests. destruct ev as [inputData | k res | r]; simpl.
  - pose proof (session_busy_tasks st Hs) as Hb.
    destruct (onmessage_outcomes inputData st)
      as [? | ? ? | ? Hc Hbusy | ? Hc Hbusy ? | u r' ? Hc Hbusy ? ? ? ?];
      simpl; (split; [reflexivity |]); try lia.
    rewrite Hbusy in Hb. rewrite Hb. simpl. lia.
  - destruct (settle_outcomes k res st)
      as [? | t Hk Hp ? | t status Hk Hp ? | t out Hk Hex Hout]; simpl.
    + split; [reflexivity | lia].
    + destruct (session_nth st k t Hs Hk) as (Ht & -> & _ & _).
      rewrite Ht. simpl. unfold requestOpen. simpl. rewrite Hp.
      split; [reflexivity | simpl; lia].
    + destruct (session_nth st k t Hs Hk) as (Ht & -> & _ & _).
      rewrite Ht. simpl. unfold requestOpen. simpl. rewrite Hp.
      split; [reflexivity | simpl; lia].
    + destruct (session_nth st k t Hs Hk) as (Ht & -> & Hw & _).
      rewrite (finish_worklet 0 t out st Hw). simpl.
      rewrite app_nil_r, Ht. simpl.
      destruct Hout as [-> | (result & -> & ->)].
      * split; [reflexivity | simpl; lia].
      * destruct (onResult_labels result) as (_ & Hreq & Hplay & Hone).
        split; [exact Hplay |].
        rewrite Hreq. unfold requestOpen.
        destruct (phase t); simpl in Hex; try discriminate. simpl. lia.
  - rewrite (stopSpeech_outcome r st Hs). simpl. split; [reflexivity | lia].
Qed.

Lemma labels_run evs :
  forall st, session r0 st ->
    (is_listener (role env) = false ->
     flat_map played (snd (run env st evs)) = []) /\
    (List.length (flat_map transcribed (snd (run env st evs)))
     + openRequests (fst (run env st evs))
     <= List.length (requests (snd (run env st evs))) + openRequests st)%nat.
Proof.
  induction evs as [| ev evs IH]; intros st Hs; simpl.
  - split; [reflexivity | lia].
  - pose proof (session_step env r0 st ev Hs) as Hs1.
    destruct (labels_step st ev Hs) as [Hplay Hcount].
    destruct (step env st ev) as [st1 out1]. simpl in *.
    destruct (IH st1 Hs1) as [Hplay' Hcount'].
    destruct (run env st1 evs) as [st2 out2]. simpl in *.
    unfold requests in *. rewrite !flat_map_app, !length_app. split.
    + intros Hr. now rewrite Hplay, Hplay'.
    + lia.
Qed.

Lemma missing_run evs :
  truthy (userId env) && truthy (roomId env) = false ->
  forall st, session r0 st -> tasks st = [] -> isProcessing st = false ->
    tasks (fst (run env st evs)) = [] /\
    isProcessing (fst (run env st evs)) = false /\
    requests (snd (run env st evs)) = [].
Proof.
  intros Hmiss.
  induction evs as [| ev evs IH]; intros st Hs Ht Hp; simpl; [now repeat split |].
  pose proof (session_step env r0 st ev Hs) as Hs1.
  assert (Hstep : tasks (fst (step env st ev)) = [] /\
                  isProcessing (fst (step env st ev)) = false /\
                  requests (snd (step env st ev)) = []).
  { destruct ev as [inputData | k res | r]; simpl.
    - destruct (onmessage_outcomes inputData st)
        as [? | ? ? | ? ? ? | ? ? ? ? | u r' ? ? ? Hu Hu' Hr Hr'];
        simpl; try now repeat split.
      exfalso. rewrite Hu, Hr in Hmiss.
      destruct u, r'; simpl in Hmiss; congruence.
    - destruct (settle_outcomes k res st)
        as [? | t Hk ? ? | t status Hk ? ? | t out Hk ? ?];
        try (rewrite Ht in Hk; destruct k; discriminate).
      now repeat split.
    - rewrite (stopSpeech_outcome r st Hs). simpl. now repeat split. }
  destruct (step env st ev) as [st1 out1]. simpl in *.
  destruct Hstep as (Ht1 & Hp1 & Hout1).
  destruct (IH st1 Hs1 Ht1 Hp1) as (Ht2 & Hp2 & Hout2).
  destruct (run env st1 evs) as [st2 out2]. simpl in *.
  unfold requests in *. now rewrite flat_map_app, Hout1, Hout2.
Qed.

End SessionFacts.

(** X6.  Throughout a session the counter [bufferSize] equals the number of
    samples held in [audioBuffer], so the array allocated for a window
    (line 501) is filled exactly. *)
Theorem X6_bufferSize_counts_samples env r0 evs :
  let st := fst (Dispatch.run env (Dispatch.startSpeech r0) evs) in
  Dispatch.bufferSize st = Session.buffered st.
Proof. apply buffered_run. reflexivity. Qed.

(** X7.  A saved overlap always has exactly 8000 samples: every window that
    is assembled holds at least 32000 samples, so the short-buffer branch
    of lines 514-518 is never taken. *)
Theorem X7_overlap_is_half_a_second env r0 evs :
  Session.overlapFull (fst (Dispatch.run env (Dispatch.startSpeech r0) evs)).
Proof. apply (Session.kept_overlap env r0). apply kept_run, kept_start. Qed.

(** X8.  Every request posted during a session carries the open marker
    -1, the format "wav", the non-empty user and room identifiers of the
    environment, the language of [getTargetLanguageCode], and a blob of
    44 + 2n bytes with n at least 32000. *)
Theorem X8_posted_requests_well_formed env r0 evs :
  Forall (Session.wellFormed env)
    (Dispatch.requests (snd (Dispatch.run env (Dispatch.startSpeech r0) evs))).
Proof. apply (requests_run env r0). apply kept_start. Qed.

(** X9.  The indices passed to [processAudioChunk] during a session never
    decrease, and none is negative. *)
Theorem X9_invoked_indices_never_decrease env r0 evs :
  let passed := Dispatch.invokedIndices
                  (snd (Dispatch.run env (Dispatch.startSpeech r0) evs)) in
  StronglySorted Z.le passed /\ Forall (fun i => 0 <= i) passed.
Proof.
  destruct (invoked_run env r0 evs (Dispatch.startSpeech r0)
              (session_start r0)) as [Hsorted Hall].
  split; [exact Hsorted |].
  eapply Forall_impl; [| exact Hall]. simpl. intros i [_ Hi]. exact Hi.
Qed.

(** X10.  The chunk indices of the requests that are posted during a
    session are strictly increasing, and none is negative. *)
Theorem X10_posted_indices_strictly_increase env r0 evs :
  let posted := Session.postedIndices
                  (snd (Dispatch.run env (Dispatch.startSpeech r0) evs)) in
  StronglySorted Z.lt posted /\ Forall (fun i => 0 <= i) posted.
Proof.
  apply (posted_run env r0 evs (Dispatch.startSpeech r0) 0).
  - apply session_start.
  - unfold Session.ahead. simpl. intros _. lia.
Qed.

(** X11.  Once [stopSpeech] has run, [processAudioChunk] is never called
    again, whatever frames and responses still arrive. *)
Theorem X11_no_submission_after_stop env r0 evs r evs' :
  let st := fst (Dispatch.run env (Dispatch.startSpeech r0) evs) in
  Dispatch.invokedIndices (snd (Dispatch.run env st (Dispatch.Stop r :: evs')))
    = [].
Proof.
  intros st.
  assert (Hs : Dispatch.session r0 st) by apply session_reachable.
  clearbody st. simpl.
  pose proof (session_step env r0 st (Dispatch.Stop r) Hs) as Hs1.
  simpl in Hs1. rewrite (stopSpeech_outcome env r0 r st Hs) in *.
  simpl in *.
  destruct (stopped_run env r0 evs' _ Hs1 eq_refl) as [Hnone _].
  destruct (Dispatch.run env _ evs') as [st2 out2]. simpl in *.
  exact Hnone.
Qed.

(** X12.  In a session the recorder's own page never plays the returned
    audio unless its role is listener, and it announces at most one
    transcription per posted request. *)
Theorem X12_one_caption_per_request_no_playback env r0 evs :
  let out := snd (Dispatch.run env (Dispatch.startSpeech r0) evs) in
  (List.length (flat_map Session.transcribed out)
   <= List.length (Dispatch.requests out))%nat /\
  (Captions.is_listener (Dispatch.role env) = false ->
   flat_map Session.played out = []).
Proof.
  intros out.
  destruct (labels_run env r0 evs (Dispatch.startSpeech r0) (session_start r0))
    as [Hplay Hcount].
  fold out in Hplay, Hcount. unfold Session.openRequests in Hcount.
  simpl in Hcount. split; [lia | exact Hplay].
Qed.

Lemma X12_one_caption_per_request_no_playback_witness :
  let out := snd (Dispatch.run Dispatch.example_env (Dispatch.startSpeech 0)
                    [Dispatch.Frame (Dispatch.silence 32000);
                     Dispatch.Settle 0 Dispatch.ArrayBufferReady;
                     Dispatch.Settle 0 (Dispatch.Responded true 200);
                     Dispatch.Settle 0 (Dispatch.Parsed Dispatch.hello)]) in
  Captions.is_listener (Dispatch.role Dispatch.example_env) = false /\
  flat_map Session.played out = [].
Proof.
  split; [reflexivity |].
  apply (X12_one_caption_per_request_no_playback Dispatch.example_env 0).
  reflexivity.
Defined.

(** X13.  When the user identifier or the room identifier is missing, no
    invocation is ever suspended, the processing flag stays off and no
    request is posted. *)
Theorem X13_nothing_posted_without_user_or_room env r0 evs :
  JS.truthy (Dispatch.userId env) && JS.truthy (Dispatch.roomId env) = false ->
  let r := Dispatch.run env (Dispatch.startSpeech r0) evs in
  Dispatch.tasks (fst r) = [] /\
  Dispatch.isProcessing (fst r) = false /\
  Dispatch.requests (snd r) = [].
Proof.
  intros Hmiss.
  apply (missing_run env r0 evs Hmiss); [apply session_start | reflexivity ..].
Qed.

Lemma X13_nothing_posted_without_user_or_room_witness :
  let r := Dispatch.run Session.anonymous_env (Dispatch.startSpeech 0)
             [Dispatch.Frame (Dispatch.silence 32000);
              Dispatch.Settle 0 Dispatch.ArrayBufferReady] in
  JS.truthy (Dispatch.userId Session.anonymous_env)
    && JS.truthy (Dispatch.roomId Session.anonymous_env) = false /\
  Dispatch.tasks (fst r) = [] /\
  Dispatch.isProcessing (fst r) = false /\
  Dispatch.requests (snd r) = [].
Proof.
  split; [reflexivity |].
  apply (X13_nothing_posted_without_user_or_room Session.anonymous_env 0).
  reflexivity.
Defined.

(** ** The caption effect, continued *)

Section CaptionTraceFacts.

Import Captions CaptionTrace.

Variable role : Role.

Lemma quiet_step st ev :
  is_listener role = false -> quiet st ->
  quiet (fst (step role st ev)) /\ snd (step role st ev) = [].
Proof.
  intros Hrole [Hp Ht]. destruct ev as [msgs ll | i o | i o | t]; simpl.
  - unfold captionEffect. destruct (lastMsg_of msgs) as [m |]; [| now repeat split].
    destruct (accepted m); [| now repeat split].
    rewrite Hrole. split; [| reflexivity].
    unfold quiet, clearCaptionTimeout. simpl.
    destruct Ht as [Ht | (t & Ht & Hr)].
    + destruct (captionTimeoutRef st); simpl; rewrite ?Ht, Hp; simpl;
        (split; [reflexivity | right; eexists; split; reflexivity]).
    + rewrite Hr. simpl. rewrite Ht, Hp. simpl. rewrite Nat.eqb_refl. simpl.
      split; [reflexivity | right; eexists; split; reflexivity].
  - rewrite Hp. simpl. now repeat split.
  - rewrite Hp. simpl. now repeat split.
  - destruct (existsb (Nat.eqb t) (timers st)) eqn:Hin; [| now repeat split].
    split; [| reflexivity]. unfold quiet. simpl. split; [exact Hp |].
    destruct Ht as [Ht | (u & Ht & Hr)]; rewrite Ht in *; simpl in *.
    + now left.
    + rewrite Bool.orb_false_r in Hin. apply Nat.eqb_eq in Hin. subst u.
      rewrite Nat.eqb_refl. simpl. now left.
Qed.

Lemma quiet_run evs :
  is_listener role = false ->
  forall st, quiet st ->
    quiet (fst (run role st evs)) /\ snd (run role st evs) = [].
Proof.
  intros Hrole. induction evs as [| ev evs IH]; intros st H; simpl;
    [now split |].
  destruct (quiet_step st ev Hrole H) as [H1 Hout].
  destruct (step role st ev) as [st1 out1]. simpl in *.
  destruct (IH st1 H1) as [H2 Hout2].
  destruct (run role st1 evs) as [st2 out2]. simpl in *.
  now rewrite Hout, Hout2.
Qed.

Lemma awaited_app_translate l i m lang :
  List.length (filter isAwaitTranslate (l ++ [(i, AwaitTranslate m lang)]))
  = S (List.length (filter isAwaitTranslate l)).
Proof. rewrite filter_app, length_app. simpl. lia. Qed.

Lemma awaited_app_tts l i :
  List.length (filter isAwaitTranslate (l ++ [(i, AwaitTTS)]))
  = List.length (filter isAwaitTranslate l).
Proof. rewrite filter_app, length_app. simpl. lia. Qed.

Lemma awaited_filter_le (f : nat * Continuation -> bool) l :
  (List.length (filter isAwaitTranslate (filter f l))
   <= List.length (filter isAwaitTranslate l))%nat.
Proof.
  induction l as [| e l IH]; simpl; [lia |].
  destruct (f e); simpl; destruct (isAwaitTranslate e); simpl; lia.
Qed.

Lemma awaited_resume i l m lang :
  lookup i l = Some (AwaitTranslate m lang) ->
  (S (List.length (filter isAwaitTranslate
                     (filter (fun e => negb (Nat.eqb (fst e) i)) l)))
   <= List.length (filter isAwaitTranslate l))%nat.
Proof.
  induction l as [| [j k] l IH]; [discriminate |].
  pose proof (awaited_filter_le (fun e => negb (Nat.eqb (fst e) i)) l) as Hle.
  cbn [lookup filter fst]. rewrite (Nat.eqb_sym j i).
  destruct (Nat.eqb i j) eqn:E; cbn [negb].
  - intros [= ->]. cbn. lia.
  - intros H. specialize (IH H). destruct k; cbn in *; lia.
Qed.

Lemma spoken_step st ev :
  (ttsRequests (snd (step role st ev)) + awaited (fst (step role st ev))
   <= translateRequests (snd (step role st ev)) + awaited st)%nat.
Proof.
  unfold ttsRequests, translateRequests, awaited.
  destruct ev as [msgs ll | i o | i o | t]; simpl.
  - unfold captionEffect. destruct (lastMsg_of msgs) as [m |]; [| simpl; lia].
    destruct (accepted m); [| simpl; lia].
    unfold clearCaptionTimeout.
    destruct (is_listener role); simpl;
      destruct (captionTimeoutRef st); simpl;
      rewrite ?awaited_app_translate; lia.
  - destruct (lookup i (pending st)) as [[m l |] |] eqn:E; simpl; try lia.
    pose proof (awaited_resume i (pending st) m l E) as Hle.
    destruct o; simpl; rewrite ?awaited_app_tts; lia.
  - destruct (lookup i (pending st)) as [[m l |] |] eqn:E; simpl; try lia.
    pose proof (awaited_filter_le (fun e => negb (Nat.eqb (fst e) i))
                  (pending st)) as Hle.
    destruct o as [| [[| c s] |]]; simpl; lia.
  - destruct (existsb (Nat.eqb t) (timers st)); simpl; lia.
Qed.

Lemma spoken_run evs :
  forall st,
    (ttsRequests (snd (run role st evs)) + awaited (fst (run role st evs))
     <= translateRequests (snd (run role st evs)) + awaited st)%nat.
Proof.
  induction evs as [| ev evs IH]; intros st; simpl; [lia |].
  pose proof (spoken_step st ev) as H1.
  destruct (step role st ev) as [st1 out1]. simpl in *.
  specialize (IH st1).
  destruct (run role st1 evs) as [st2 out2]. simpl in *.
  unfold ttsRequests, translateRequests in *.
  rewrite !filter_app, !length_app. lia.
Qed.

End CaptionTraceFacts.

(** X14.  For a participant who is not a listener, the caption effect
    never starts a request and never suspends anything, and at most one
    expiry timer is pending at any time. *)
Theorem X14_non_listener_requests_nothing role evs :
  Captions.is_listener role = false ->
  let r := Captions.run role Captions.initial evs in
  snd r = [] /\
  Captions.pending (fst r) = [] /\
  (List.length (Captions.timers (fst r)) <= 1)%nat.
Proof.
  intros Hrole r.
  destruct (quiet_run role evs Hrole Captions.initial) as [[Hp Ht] Hout].
  { split; [reflexivity | now left]. }
  fold r in Hp, Ht, Hout.
  repeat split; try assumption.
  destruct Ht as [-> | (t & -> & _)]; simpl; lia.
Qed.

Lemma X14_non_listener_requests_nothing_witness :
  let r := Captions.run Captions.Creator Captions.initial
             [Captions.DataMessages
                [Captions.example_caption (Some (lit "one"))] None;
              Captions.DataMessages
                [Captions.example_caption (Some (lit "two"))] None] in
  Captions.is_listener Captions.Creator = false /\
  snd r = [] /\ Captions.pending (fst r) = [] /\
  (List.length (Captions.timers (fst r)) <= 1)%nat.
Proof.
  split; [reflexivity |].
  apply (X14_non_listener_requests_nothing Captions.Creator). reflexivity.
Defined.

(** X15.  Over any sequence of events, the speech-synthesis requests never
    outnumber the translation requests: an event is spoken at most once. *)
Theorem X15_at_most_one_synthesis_per_event role evs :
  let out := snd (Captions.run role Captions.initial evs) in
  (CaptionTrace.ttsRequests out <= CaptionTrace.translateRequests out)%nat.
Proof.
  intros out.
  pose proof (spoken_run role evs Captions.initial) as H.
  fold out in H. unfold CaptionTrace.awaited in H at 2. simpl in H. lia.
Qed.

Section CaptionDisplay.

Import Captions Controls.

(** X16.  When the decoded translation of a caption event arrives at a
    listener, the caption displayed is the translated text, or the source
    text when the response carries none; it is not empty, it is the single
    entry of the history, its expiry timer is pending, and the text sent to
    speech synthesis is exactly the caption displayed, in the target
    language resolved when the event arrived. *)
Theorem X16_spoken_text_is_displayed_text
    evs0 dataMessages ll m t evs translated :
  let st0 := fst (run Listener initial evs0) in
  let st1 := fst (step Listener st0 (DataMessages dataMessages ll)) in
  let st2 := fst (run Listener st1 evs) in
  let r3 := step Listener st2
              (TranslateSettled (nextId st0) (TranslateData translated)) in
  lastMsg_of dataMessages = Some m ->
  accepted m = true ->
  text m = Some t ->
  Forall (fun ev => ~ settles (nextId st0) ev) evs ->
  captionText (fst r3) = or_else translated t /\
  captionText (fst r3) <> [] /\
  map text (messages (fst r3)) = [Some (captionText (fst r3))] /\
  snd r3 = [FetchTTS (S (nextId st2)) (captionText (fst r3)) (myLanguage ll)] /\
  captionTimeoutRef (fst r3) = Some (nextId st2) /\
  In (nextId st2) (timers (fst r3)).
Proof.
  intros st0 st1 st2 r3 Hm Hacc Ht Hevs.
  assert (Hwf : wf st0) by (apply wf_run, wf_initial).
  destruct (listener_delivery st0 dataMessages ll m Hwf Hm Hacc) as [_ Hp].
  pose proof (run_keeps_translation Listener evs _ _ _ st1 Hp Hevs) as Hp2.
  fold st2 in Hp2. clearbody st2. subst r3. simpl. rewrite Hp2. simpl.
  destruct (accepted_text m Hacc) as (c & s & E).
  rewrite Ht in E. injection E as ->. rewrite Ht. simpl.
  repeat split.
  - now destruct translated as [[| c' s'] |].
  - rewrite in_app_iff. right. now left.
Qed.

Lemma X16_spoken_text_is_displayed_text_witness :
  let m := example_caption (Some (lit "hello")) in
  let st0 := fst (run Listener initial []) in
  let st1 := fst (step Listener st0 (DataMessages [m] (Some (lit "es-ES")))) in
  let st2 := fst (run Listener st1 []) in
  let r3 := step Listener st2
              (TranslateSettled (nextId st0) (TranslateData (Some []))) in
  captionText (fst r3) = lit "hello" /\
  captionText (fst r3) <> [] /\
  map text (messages (fst r3)) = [Some (captionText (fst r3))] /\
  snd r3 = [FetchTTS (S (nextId st2)) (captionText (fst r3)) (lit "es-ES")] /\
  captionTimeoutRef (fst r3) = Some (nextId st2) /\
  In (nextId st2) (timers (fst r3)).
Proof.
  apply (X16_spoken_text_is_displayed_text [] _ (Some (lit "es-ES"))
           (example_caption (Some (lit "hello"))) (lit "hello") [] (Some [])).
  - reflexivity.
  - reflexivity.
  - reflexivity.
  - constructor.
Defined.

(** X17.  In every state the caption effect can reach, [displayCaptions]
    renders the whole history, which has at most one entry, and the
    recent-messages block is not rendered. *)
Theorem X17_history_rendered_whole role evs :
  let st := fst (run role initial evs) in
  displayCaptions (messages st) = map text (messages st) /\
  (List.length (displayCaptions (messages st)) <= 1)%nat /\
  showsRecentMessages (messages st) = false.
Proof.
  intros st.
  assert (Hwf : wf st) by (apply wf_run, wf_initial).
  pose proof (wf_messages st Hwf) as Hlen. clearbody st.
  unfold displayCaptions, showsRecentMessages, sliceLast.
  replace (List.length (messages st) - 5)%nat with 0%nat by lia.
  simpl skipn. rewrite length_map.
  repeat split; [exact Hlen |].
  apply Nat.ltb_ge. exact Hlen.
Qed.

(** X22.  A click on the microphone starts or stops recording exactly when
    the button is rendered enabled; it stops only while recording and
    starts only while not recording, and never while connecting or
    processing. *)
Theorem X22_mic_click_matches_button (u : Ui) :
  (disabled (getMicButtonState u) = false <->
   handleMicClick u = CallStopSpeech \/ handleMicClick u = CallStartSpeech) /\
  (handleMicClick u = CallStopSpeech ->
   ui_role u = Creator /\ ui_isRecording u = true /\
   ui_isConnecting u = false /\ ui_isProcessing u = false) /\
  (handleMicClick u = CallStartSpeech ->
   ui_role u = Creator /\ ui_isRecording u = false /\
   ui_isConnecting u = false /\ ui_isProcessing u = false).
Proof.
  destruct u as [[| |] [|] [|] [|]]; unfold handleMicClick, getMicButtonState;
    simpl; repeat split; intros; try discriminate; auto;
    try (destruct H; discriminate).
Qed.

Lemma X22_mic_click_matches_button_witness :
  let u := {| ui_role := Creator; ui_isConnecting := false;
              ui_isProcessing := false; ui_isRecording := true |} in
  handleMicClick u = CallStopSpeech /\
  disabled (getMicButtonState u) = false /\
  ui_role u = Creator /\ ui_isRecording u = true /\
  ui_isConnecting u = false /\ ui_isProcessing u = false.
Proof.
  split; [reflexivity |].
  split.
  - apply (proj1 (X22_mic_click_matches_button _)). now left.
  - apply (proj1 (proj2 (X22_mic_click_matches_button _))). reflexivity.
Defined.

Lemma quiet_keeps_messages role evs :
  is_listener role = false ->
  forallb (fun ev => negb (CaptionTrace.newCaption ev)) evs = true ->
  forall st, CaptionTrace.quiet st ->
    messages (fst (run role st evs)) = messages st.
Proof.
  intros Hrole. induction evs as [| ev evs IH]; intros Hevs st Hq;
    [reflexivity |].
  simpl in Hevs. apply andb_true_iff in Hevs as [Hev Hevs].
  apply negb_true_iff in Hev.
  destruct (quiet_step role st ev Hrole Hq) as [Hq1 _].
  assert (Hm : messages (fst (step role st ev)) = messages st).
  { destruct Hq as [Hp _].
    destruct ev as [msgs ll | i o | i o | t]; simpl in *.
    - unfold captionEffect.
      destruct (lastMsg_of msgs) as [m |]; [| reflexivity].
      now rewrite Hev.
    - now rewrite Hp.
    - now rewrite Hp.
    - now destruct (existsb (Nat.eqb t) (timers st)). }
  simpl. destruct (step role st ev) as [st1 out1]. simpl in *.
  specialize (IH Hevs st1 Hq1).
  destruct (run role st1 evs) as [st2 out2]. simpl in *. congruence.
Qed.

(** X23.  For a participant who is not a listener the newest event wins:
    once a caption event is processed, the page shows its text and keeps
    showing it, whatever timers fire and responses arrive, until a newer
    caption event is accepted. *)
Theorem X23_non_listener_newest_event_stays
    role evs0 dataMessages ll m t evs :
  let st0 := fst (run role initial evs0) in
  let st1 := fst (step role st0 (DataMessages dataMessages ll)) in
  let st2 := fst (run role st1 evs) in
  is_listener role = false ->
  lastMsg_of dataMessages = Some m ->
  accepted m = true ->
  text m = Some t ->
  forallb (fun ev => negb (CaptionTrace.newCaption ev)) evs = true ->
  messages st2 = [m] /\ displayCaptions (messages st2) = [Some t].
Proof.
  intros st0 st1 st2 Hrole Hm Hacc Ht Hevs.
  assert (Hq0 : CaptionTrace.quiet st0).
  { apply (quiet_run role evs0 Hrole). split; [reflexivity | now left]. }
  destruct (quiet_step role st0 (DataMessages dataMessages ll) Hrole Hq0)
    as [Hq1 _].
  fold st1 in Hq1.
  assert (H1 : messages st1 = [m]).
  { subst st1. simpl. unfold captionEffect. rewrite Hm, Hacc, Hrole.
    reflexivity. }
  pose proof (quiet_keeps_messages role evs Hrole Hevs st1 Hq1) as H2.
  fold st2 in H2. rewrite H2, H1.
  split; [reflexivity |].
  unfold displayCaptions. simpl. now rewrite Ht.
Qed.

Lemma X23_non_listener_newest_event_stays_witness :
  let m1 := example_caption (Some (lit "one")) in
  let m2 := example_caption (Some (lit "two")) in
  let st0 := fst (run Creator initial [DataMessages [m1] None]) in
  let st1 := fst (step Creator st0 (DataMessages [m1; m2] None)) in
  let st2 := fst (run Creator st1
                    [TimerFired 1;
                     TranslateSettled 1 (TranslateData (Some (lit "uno")));
                     TimerFired 2]) in
  messages st2 = [m2] /\ displayCaptions (messages st2) = [Some (lit "two")].
Proof.
  exact (X23_non_listener_newest_event_stays Creator
           [DataMessages [example_caption (Some (lit "one"))] None]
           [example_caption (Some (lit "one"));
            example_caption (Some (lit "two"))] None
           (example_caption (Some (lit "two"))) (lit "two")
           [TimerFired 1;
            TranslateSettled 1 (TranslateData (Some (lit "uno")));
            TimerFired 2]
           eq_refl eq_refl eq_refl eq_refl eq_refl).
Defined.

End CaptionDisplay.

(** ** Storage helpers and language resolution *)

Section StorageFacts.

Import Storage.

Lemma jsstring_eqb_refl (a : jsstring) : jsstring_eqb a a = true.
Proof. unfold jsstring_eqb. now destruct (list_eq_dec N.eq_dec a a). Qed.

Lemma jsstring_eqb_neq (a b : jsstring) : a <> b -> jsstring_eqb a b = false.
Proof.
  intros H. unfold jsstring_eqb.
  now destruct (list_eq_dec N.eq_dec a b).
Qed.

Lemma getItem_removeItem_same key s : getItem key (removeItem key s) = None.
Proof.
  induction s as [| [k v] s IH]; simpl; [reflexivity |].
  destruct (jsstring_eqb key k) eqn:E; simpl; [exact IH |].
  now rewrite E.
Qed.

Lemma getItem_removeItem_other key key' s :
  key' <> key -> getItem key' (removeItem key s) = getItem key' s.
Proof.
  intros Hne. induction s as [| [k v] s IH]; simpl; [reflexivity |].
  unfold jsstring_eqb at 1.
  destruct (list_eq_dec N.eq_dec key k) as [<- | Hk]; simpl.
  - now rewrite (jsstring_eqb_neq key' key Hne).
  - now rewrite IH.
Qed.

Lemma getItem_setItem_same key v s : getItem key (setItem key v s) = Some v.
Proof. unfold setItem. simpl. now rewrite jsstring_eqb_refl. Qed.

Lemma getItem_setItem_other key key' v s :
  key' <> key -> getItem key' (setItem key v s) = getItem key' s.
Proof.
  intros Hne. unfold setItem. simpl.
  rewrite (jsstring_eqb_neq key' key Hne).
  now apply getItem_removeItem_other.
Qed.

Lemma keys_distinct :
  localStorageTokenKey <> localStorageUserKey /\
  listenerLanguageKey <> localStorageTokenKey /\
  listenerLanguageKey <> localStorageUserKey.
Proof. repeat split; discriminate. Qed.

(** X18.  The language sent with an audio chunk is the listener override
    read when the request is built, when it is a non-empty string; else the
    language of the profile stored when the component rendered, when that
    is a non-empty string; else the override as it was at render, when
    non-empty; else "en-US".  It is never empty.  The profile must parse,
    without which the component does not render (line 183).  With one and
    the same storage at both moments this is the language of the session
    model. *)
Theorem X18_chunk_language_precedence
    (atRender atRequest : Helpers.LocalStorage) (env : Dispatch.Env) :
  Helpers.getUserData atRender <> Helpers.Throw ->
  ChunkLanguage.getTargetLanguageCode atRender atRequest
    = or_else (Helpers.listenerLanguage atRequest)
        (or_else (ChunkLanguage.profileLanguage atRender)
           (or_else (Helpers.listenerLanguage atRender)
              Helpers.defaultLanguage)) /\
  ChunkLanguage.getTargetLanguageCode atRender atRequest <> [] /\
  Dispatch.getTargetLanguageCode env
    = ChunkLanguage.getTargetLanguageCode (Dispatch.storage env)
        (Dispatch.storage env).
Proof.
  intros Hparse.
  unfold ChunkLanguage.getTargetLanguageCode, ChunkLanguage.profileLanguage,
    Helpers.getUserLanguage.
  split; [| split; [| reflexivity]].
  - destruct (Helpers.getUserData atRender) as [[u |] |];
      [| | contradiction];
      destruct (Helpers.listenerLanguage atRequest) as [[| c l] |];
      try reflexivity;
      try (destruct (Helpers.language u) as [[| c' l'] |]);
      destruct (Helpers.listenerLanguage atRender) as [[| c'' l''] |];
      reflexivity.
  - destruct (Helpers.listenerLanguage atRequest) as [[| c l] |];
      try discriminate;
      (destruct (Helpers.getUserData atRender) as [[u |] |];
       [| | contradiction];
       try (destruct (Helpers.language u) as [[| c' l'] |]);
       destruct (Helpers.listenerLanguage atRender) as [[| c'' l''] |];
       discriminate).
Qed.

Lemma X18_chunk_language_precedence_witness :
  let atRender := {| Helpers.listenerLanguage := Some (lit "fr-FR");
                     Helpers.userDataItem := None |} in
  let atRequest := {| Helpers.listenerLanguage := None;
                      Helpers.userDataItem := None |} in
  Helpers.getUserData atRender <> Helpers.Throw /\
  ChunkLanguage.getTargetLanguageCode atRender atRequest = lit "fr-FR".
Proof.
  assert (H : Helpers.getUserData
                {| Helpers.listenerLanguage := Some (lit "fr-FR");
                   Helpers.userDataItem := None |} <> Helpers.Throw)
    by discriminate.
  split; [exact H |].
  exact (proj1 (X18_chunk_language_precedence _
                  {| Helpers.listenerLanguage := None;
                     Helpers.userDataItem := None |}
                  Dispatch.example_env H)).
Defined.

(** X19.  After [Helpers.userLogout] the token and the profile are gone
    but a listener override survives, so [getUserLanguage] gives the
    override if there is one and "en-US" otherwise; after the settings
    page's [handleLogout] it always gives "en-US". *)
Theorem X19_language_after_logout
    (parseJson : jsstring -> Helpers.JsonUser) (s : localStorage) :
  getToken (userLogout s) = None /\
  getItem localStorageUserKey (userLogout s) = None /\
  getItem listenerLanguageKey (userLogout s) = getItem listenerLanguageKey s /\
  Helpers.getUserLanguage (view parseJson (userLogout s))
    = or_else (getItem listenerLanguageKey s) Helpers.defaultLanguage /\
  Helpers.getUserLanguage (view parseJson (handleLogout s))
    = Helpers.defaultLanguage.
Proof.
  destruct keys_distinct as (Htu & Hlt & Hlu).
  assert (Hu : getItem localStorageUserKey (userLogout s) = None).
  { unfold userLogout. apply getItem_removeItem_same. }
  assert (Hl : getItem listenerLanguageKey (userLogout s)
               = getItem listenerLanguageKey s).
  { unfold userLogout.
    now rewrite !getItem_removeItem_other by assumption. }
  split; [| split; [exact Hu | split; [exact Hl | split]]].
  - unfold getToken, getItemLocalStorage, userLogout.
    rewrite getItem_removeItem_other by exact Htu.
    now rewrite getItem_removeItem_same.
  - unfold Helpers.getUserLanguage, Helpers.getUserData, view. simpl.
    rewrite Hu, Hl. simpl.
    now destruct (getItem listenerLanguageKey s) as [[| c l] |].
  - reflexivity.
Qed.

(** X20.  After [saveUserLocal] the stored token reads back through
    [getToken] unless it is the empty string, which reads back as [null];
    [isAuthenticated] holds exactly for a non-empty token, and it no longer
    holds after either logout. *)
Theorem X20_token_round_trip
    (stringifyJson : Helpers.User -> jsstring)
    (token : jsstring) (user : Helpers.User) (s : localStorage) :
  let s' := saveUserLocal stringifyJson token user s in
  getToken s' = (match token with [] => None | _ => Some token end) /\
  isAuthenticated s' = truthy (Some token) /\
  getItem localStorageUserKey s' = Some (stringifyJson user) /\
  isAuthenticated (userLogout s') = false /\
  isAuthenticated (handleLogout s') = false.
Proof.
  intros s'. destruct keys_distinct as (Htu & _ & _).
  assert (Ht : getItem localStorageTokenKey s' = Some token).
  { subst s'. unfold saveUserLocal, saveLocalStorage.
    rewrite getItem_setItem_other by exact Htu.
    apply getItem_setItem_same. }
  split; [| split; [| split; [| split]]].
  - unfold getToken, getItemLocalStorage. rewrite Ht. now destruct token.
  - unfold isAuthenticated, getToken, getItemLocalStorage. rewrite Ht.
    now destruct token.
  - subst s'. unfold saveUserLocal. apply getItem_setItem_same.
  - unfold isAuthenticated, getToken, getItemLocalStorage, userLogout.
    rewrite getItem_removeItem_other by exact Htu.
    now rewrite getItem_removeItem_same.
  - reflexivity.
Qed.

(** X21.  When [JSON.parse] gives back the profile that [JSON.stringify]
    wrote, the profile saved by [saveUserLocal] is the one [getUserData]
    returns, and its language, when it is a non-empty string, is what
    [getUserLanguage] returns, whatever the listener override is. *)
Theorem X21_saved_profile_language
    (stringifyJson : Helpers.User -> jsstring)
    (parseJson : jsstring -> Helpers.JsonUser)
    (token : jsstring) (user : Helpers.User) (s : localStorage)
    (c : N) (l : jsstring) :
  stringifyJson user <> [] ->
  parseJson (stringifyJson user) = Helpers.JsonObject user ->
  Helpers.language user = Some (c :: l) ->
  let ls := view parseJson (saveUserLocal stringifyJson token user s) in
  Helpers.getUserData ls = Helpers.Ok (Some user) /\
  Helpers.getUserLanguage ls = c :: l.
Proof.
  intros Hne Hparse Hlang ls.
  assert (Hd : Helpers.getUserData ls = Helpers.Ok (Some user)).
  { subst ls. unfold Helpers.getUserData, view, saveUserLocal.
    cbn [Helpers.userDataItem]. rewrite getItem_setItem_same.
    cbn [option_map]. rewrite Hparse.
    destruct (stringifyJson user); [contradiction | reflexivity]. }
  split; [exact Hd |].
  unfold Helpers.getUserLanguage. rewrite Hd, Hlang. reflexivity.
Qed.

Lemma X21_saved_profile_language_witness :
  let ls := view example_parse
              (saveUserLocal example_stringify (lit "jwt") example_user
                 [(listenerLanguageKey, lit "fr-FR")]) in
  Helpers.getUserData ls = Helpers.Ok (Some example_user) /\
  Helpers.getUserLanguage ls = lit "es-ES".
Proof.
  apply (X21_saved_profile_language example_stringify example_parse
           (lit "jwt") example_user [(listenerLanguageKey, lit "fr-FR")]
           101%N (lit "s-ES")).
  - discriminate.
  - reflexivity.
  - reflexivity.
Defined.

End StorageFacts.
